(** * Keyless table reader and UPDATE engine of dolt: a shallow embedding

    Source files embedded here:
    - [go/libraries/doltcore/table/keyless_reader.go]: the reader over
      tables without a primary key ([keylessTableReader], [ReadRow] and
      the four constructors);
    - [go/libraries/doltcore/sql/sqlupdate_test.go]: the table-driven test
      of [ExecuteUpdate]; the engine itself, the row codec
      ([row.KeylessRowsFromTuples]) and the persistent map ([types.Map])
      live in other packages and are modelled from the specification,
      each under a doc comment that says so. *)

From stdpp Require Import base option list gmap strings sorting.
From Stdlib Require Import ZArith Lia Ascii.

Local Open Scope Z_scope.

#[local] Set Warnings "-clear-no-such-hyp".

(** ** Values, tuples and logical rows *)

(** A noms value as the rows of a table hold it: a tagged union.  Unsigned
    integers are naturals; a UUID is its 128-bit number.  Floating-point
    values are left out of the embedding. *)
Inductive Value : Type :=
  | VNull
  | VBool (b : bool)
  | VInt (z : Z)
  | VUint (n : N)
  | VString (s : string)
  | VUuid (u : N).

#[global] Instance Value_eq_dec : EqDecision Value.
Proof. solve_decision. Defined.

(** A key tuple or a value tuple: an ordered sequence of values. *)
Definition Tuple : Type := list Value.

(** A logical row: column tag to value; a null column holds [VNull]. *)
Abbreviation Row := (gmap N Value).

(** ** Schemas *)

Inductive ColType : Type := TBool | TInt | TUint | TString | TUuid.

#[global] Instance ColType_eq_dec : EqDecision ColType.
Proof. solve_decision. Defined.

Record Column : Type := mkColumn {
  col_tag : N;
  col_type : ColType;
  col_nullable : bool;
  col_is_pk : bool
}.

Definition Schema : Type := list Column.

(** A literal on the right-hand side of an assignment of an UPDATE. *)
Inductive Literal : Type :=
  | LNull
  | LBool (b : bool)
  | LInt (z : Z)
  | LString (s : string).

#[global] Instance Literal_eq_dec : EqDecision Literal.
Proof. solve_decision. Defined.

(** ** Errors *)

(** Go's [error] values that this development distinguishes: [io.EOF], an
    error built by [fmt.Errorf], a failure of the chunk store, and the
    error kinds of the specification. *)
Inductive error : Type :=
  | io_EOF
  | Errorf (msg : string)
  | StorageError (msg : string)
  | MalformedRowError
  | NullConstraintViolation (tag : N)
  | TypeMismatchError (tag : N) (l : Literal) (t : ColType)
  | DuplicateAssignmentColumnError (tag : N)
  | PrimaryKeyCollisionError (key : Tuple).

#[global] Instance error_eq_dec : EqDecision error.
Proof. solve_decision. Defined.

(** The specification's [NotImplementedError] for the operation [what], as
    the code builds it with [fmt.Errorf]. *)
Definition NotImplementedError (what : string) : error :=
  Errorf (what ++ " is unimplemented").

(** ** Machine integers *)

Definition uint64_modulus : Z := 2 ^ 64.

(** Wrap-around of Go's [uint64] arithmetic. *)
Definition wrap64 (z : Z) : Z := z mod uint64_modulus.

(** ** Key order of the map *)

Definition Value_rank (v : Value) : Z :=
  match v with
  | VNull => 0
  | VBool _ => 1
  | VInt _ => 2
  | VUint _ => 3
  | VString _ => 4
  | VUuid _ => 5
  end.

Definition Value_compare (a b : Value) : comparison :=
  match a, b with
  | VNull, VNull => Eq
  | VBool x, VBool y => Bool.compare x y
  | VInt x, VInt y => Z.compare x y
  | VUint x, VUint y => N.compare x y
  | VString x, VString y => String.compare x y
  | VUuid x, VUuid y => N.compare x y
  | _, _ => Z.compare (Value_rank a) (Value_rank b)
  end.

Fixpoint Tuple_compare (a b : Tuple) : comparison :=
  match a, b with
  | [], [] => Eq
  | [], _ :: _ => Lt
  | _ :: _, [] => Gt
  | x :: a', y :: b' =>
      match Value_compare x y with
      | Eq => Tuple_compare a' b'
      | c => c
      end
  end.

Definition key_leb (a b : Tuple) : bool :=
  match Tuple_compare a b with Gt => false | _ => true end.

Definition key_ltb (a b : Tuple) : bool :=
  match Tuple_compare a b with Lt => true | _ => false end.

(** [a] is not above [b] in the key order of the map. *)
Definition key_le (a b : Tuple) : Prop := key_leb a b = true.

(** ** The persistent map and its iterators *)

(** Modelled from the spec: [types.Map], the ordered content-addressed map
    (package [store/types], outside this repository slice).  The model is
    its sequence of physical entries in key order; a position is an index
    into that sequence. *)
Definition Map : Type := list (Tuple * Tuple).

Fixpoint Map_sorted (m : Map) : bool :=
  match m with
  | [] => true
  | e :: m' =>
      match m' with
      | [] => true
      | e' :: _ => key_ltb e.1 e'.1 && Map_sorted m'
      end
  end.

(** Which of the map's iteration primitives built an iterator. *)
Inductive IterKind : Type := PlainIterator | BufferedIterator.

(** Modelled from the spec: what one call of [Next] of the map iterator
    finds at the cursor: an entry, or a failure of the chunk store
    underneath (the error [ReadRow] checks first). *)
Inductive IterStep : Type :=
  | Yield (k v : Tuple)
  | Fault (e : error).

(** Modelled from the spec: [types.MapIterator].  The cursor is the list of
    steps still to come. *)
Record MapIterator : Type := mkIter {
  iter_kind : IterKind;
  iter_pending : list IterStep
}.

Definition entry_step (e : Tuple * Tuple) : IterStep := Yield e.1 e.2.

(** Modelled from the spec: [Map.Iterator], plain iteration from the
    first entry.  The specification takes the map as a correct black box,
    so building an iterator succeeds: the error is nil. *)
Definition Map_Iterator (m : Map) : MapIterator * option error :=
  (mkIter PlainIterator (entry_step <$> m), None).

(** Modelled from the spec: [Map.BufferedIterator], read-ahead iteration
    from the first entry; the error is nil as for [Map.Iterator]. *)
Definition Map_BufferedIterator (m : Map) : MapIterator * option error :=
  (mkIter BufferedIterator (entry_step <$> m), None).

(** Modelled from the spec: [Map.BufferedIteratorAt], read-ahead
    iteration from the entry at the physical position [pos]; the error is
    nil as for [Map.Iterator]. *)
Definition Map_BufferedIteratorAt (m : Map) (pos : Z)
  : MapIterator * option error :=
  (mkIter BufferedIterator (entry_step <$> drop (Z.to_nat pos) m), None).

(** The entries from the first one whose key is not below [val]. *)
Fixpoint Map_seek (val : Tuple) (m : Map) : Map :=
  match m with
  | [] => []
  | e :: m' => if key_ltb e.1 val then Map_seek val m' else m
  end.

(** Modelled from the spec: [Map.IteratorFrom], plain iteration from the
    first entry whose key is not below [val]; the error is nil as for
    [Map.Iterator]. *)
Definition Map_IteratorFrom (m : Map) (val : Tuple)
  : MapIterator * option error :=
  (mkIter PlainIterator (entry_step <$> Map_seek val m), None).

(** Modelled from the spec: [MapIterator.Next], the entry under the
    cursor ([None] at the end of the map) and the error, with the iterator
    moved on.  Where the cursor stands after a failure is a choice of the
    model. *)
Definition MapIterator_Next (it : MapIterator)
  : MapIterator * (option (Tuple * Tuple) * option error) :=
  match iter_pending it with
  | [] => (it, (None, None))
  | Yield k v :: rest => (mkIter (iter_kind it) rest, (Some (k, v), None))
  | Fault e :: rest => (mkIter (iter_kind it) rest, (None, Some e))
  end.

(** Modelled from the spec: [doltdb.Table], reduced to what [GetRowData]
    returns: the row map and the error. *)
Record Table : Type := mkTable {
  GetRowData : Map * option error
}.

(** ** keyless_reader.go *)

(** [type keylessTableReader struct]. [row] is [None] for Go's nil;
    [duplicates] is a [uint64]. *)
Record keylessTableReader : Type := mkReader {
  iter : MapIterator;
  sch : Schema;
  row : option Row;
  duplicates : Z
}.

(** [func (rdr *keylessTableReader) GetSchema]. *)
Definition GetSchema (rdr : keylessTableReader) : Schema := sch rdr.

Section Reader.

(** [row.KeylessRowsFromTuples], from package [row]: the row, its
    cardinality and the error, as Go returns them. *)
Variable KeylessRowsFromTuples :
  Tuple -> Tuple -> option Row * Z * option error.

(** [func (rdr *keylessTableReader) ReadRow]: the reader after the call
    and the pair the call returns. *)
Definition ReadRow (rdr : keylessTableReader)
  : keylessTableReader * (option Row * option error) :=
  if duplicates rdr =? 0 then
    let '(it, (entry, err)) := MapIterator_Next (iter rdr) in
    let rdr1 := mkReader it (sch rdr) (row rdr) (duplicates rdr) in
    match err with
    | Some e => (rdr1, (None, Some e))
    | None =>
        match entry with
        | None => (rdr1, (None, Some io_EOF))
        | Some (key, val) =>
            let '(r, n, err) := KeylessRowsFromTuples key val in
            let rdr2 := mkReader it (sch rdr) r n in
            match err with
            | Some e => (rdr2, (None, Some e))
            | None =>
                (mkReader it (sch rdr) r (wrap64 (n - 1)), (r, None))
            end
        end
    end
  else
    (mkReader (iter rdr) (sch rdr) (row rdr) (wrap64 (duplicates rdr - 1)),
     (row rdr, None)).

(** [func (rdr *keylessTableReader) ReadSqlRow], over the conversion
    [sqlutil.DoltRowToSqlRow] of package [sqlutil]. *)
Definition ReadSqlRow {SqlRow : Type}
    (DoltRowToSqlRow : option Row -> Schema -> option SqlRow * option error)
    (rdr : keylessTableReader)
  : keylessTableReader * (option SqlRow * option error) :=
  let '(rdr', (r, err)) := ReadRow rdr in
  match err with
  | Some e => (rdr', (None, Some e))
  | None => (rdr', DoltRowToSqlRow r (sch rdr'))
  end.

(** [n] successive calls of [ReadRow]: what each returned, and the reader
    left behind. *)
Fixpoint ReadRows (n : nat) (rdr : keylessTableReader)
  : list (option Row * option error) * keylessTableReader :=
  match n with
  | O => ([], rdr)
  | S n' =>
      let '(rdr', out) := ReadRow rdr in
      let '(outs, rdr'') := ReadRows n' rdr' in
      (out :: outs, rdr'')
  end.

End Reader.

(** A fresh reader, as the constructors build it: [row] and [duplicates]
    are Go's zero values. *)
Definition freshReader (it : MapIterator) (s : Schema) : keylessTableReader :=
  mkReader it s None 0.

(** [func newKeylessTableReader]. *)
Definition newKeylessTableReader (tbl : Table) (s : Schema) (buffered : bool)
  : option keylessTableReader * option error :=
  let '(rows, err) := GetRowData tbl in
  match err with
  | Some e => (None, Some e)
  | None =>
      let '(it, err) :=
        if buffered then Map_Iterator rows else Map_BufferedIterator rows in
      match err with
      | Some e => (None, Some e)
      | None => (Some (freshReader it s), None)
      end
  end.

(** [func newKeylessTableReaderForPartition]. *)
Definition newKeylessTableReaderForPartition
    (tbl : Table) (s : Schema) (start end_ : Z)
  : option keylessTableReader * option error :=
  let '(rows, err) := GetRowData tbl in
  match err with
  | Some e => (None, Some e)
  | None =>
      let '(it, err) := Map_BufferedIteratorAt rows start in
      match err with
      | Some e => (None, Some e)
      | None => (Some (freshReader it s), None)
      end
  end.

(** [func newKeylessTableReaderForRanges]; [ReadRange] stands for
    [noms.ReadRange]. *)
Definition newKeylessTableReaderForRanges {ReadRange : Type}
    (tbl : Table) (s : Schema) (ranges : list ReadRange)
  : option keylessTableReader * option error :=
  (None, Some (Errorf "newKeylessTableReaderForRanges is unimplemented")).

(** [func newKeylessTableReaderFrom]. *)
Definition newKeylessTableReaderFrom (tbl : Table) (s : Schema) (val : Tuple)
  : option keylessTableReader * option error :=
  let '(rows, err) := GetRowData tbl in
  match err with
  | Some e => (None, Some e)
  | None =>
      let '(it, err) := Map_IteratorFrom rows val in
      match err with
      | Some e => (None, Some e)
      | None => (Some (freshReader it s), None)
      end
  end.

(** ** Row codec *)

(** A table is keyless when its schema declares no primary-key column. *)
Definition is_keyless (s : Schema) : bool :=
  forallb (fun c => negb (col_is_pk c)) s.

Definition pk_cols (s : Schema) : list Column :=
  List.filter col_is_pk s.

Definition nonpk_cols (s : Schema) : list Column :=
  List.filter (fun c => negb (col_is_pk c)) s.

(** The values of the columns [cols] in a row, in the order of [cols]. *)
Definition row_values (r : Row) (cols : list Column) : Tuple :=
  (fun c => default VNull (r !! col_tag c)) <$> cols.

(** The row that binds the columns [cols], in order, to the fields of a
    tuple. *)
Definition row_of_values (cols : list Column) (t : Tuple) : Row :=
  list_to_map (zip (col_tag <$> cols) t).

(** The leading field of a keyless value tuple, read as an integer. *)
Definition parse_count (v : Value) : option Z :=
  match v with
  | VUint n => Some (Z.of_N n)
  | VInt z => Some z
  | _ => None
  end.

(** Modelled from the spec: the key tuple of a keyless row, "a hash of the
    full row plus a uniquifying discriminator".  The model's hash is the
    row's payload itself, which never collides, so the discriminator is
    the constant 0. *)
Definition keyless_key (r : Row) (s : Schema) : Tuple :=
  row_values r s ++ [VUint 0].

(** Modelled from the spec: [decode(keyTuple, valueTuple, schema)] of the
    Row Codec (package [row], not in this slice).  For a primary-keyed
    schema the count is always 1; for a keyless schema the first value
    field is the duplicate count and the rest the payload, and decoding
    fails with [MalformedRowError] when that field is missing or not
    positive. *)
Definition decode (k v : Tuple) (s : Schema) : error + (Row * Z) :=
  if is_keyless s then
    match v with
    | [] => inl MalformedRowError
    | c :: payload =>
        match parse_count c with
        | None => inl MalformedRowError
        | Some n =>
            if n <=? 0 then inl MalformedRowError
            else inr (row_of_values s payload, n)
        end
    end
  else
    inr (row_of_values (pk_cols s) k ∪ row_of_values (nonpk_cols s) v, 1).

(** Modelled from the spec: [encode(logicalRow, duplicateCount, schema)],
    the inverse of [decode].  A primary-keyed row has its primary-key
    columns in the key tuple and the remaining columns in the value
    tuple; a keyless row has its count, then every column, in the value
    tuple. *)
Definition encode (r : Row) (n : Z) (s : Schema) : Tuple * Tuple :=
  if is_keyless s then
    (keyless_key r s, VUint (Z.to_N n) :: row_values r s)
  else
    (row_values r (pk_cols s), row_values r (nonpk_cols s)).

(** A row is valid for a schema when it binds exactly the schema's
    columns (a null column to [VNull]). *)
Definition valid_row (r : Row) (s : Schema) : Prop :=
  dom r = list_to_set (col_tag <$> s).

(** A duplicate count is valid when it is at least 1, and exactly 1 under
    a primary key. *)
Definition valid_count (n : Z) (s : Schema) : Prop :=
  1 <= n /\ (is_keyless s = false -> n = 1).

(** Modelled from the spec: [row.KeylessRowsFromTuples] as the reader
    calls it, for the tables of schema [s]: the codec's [decode], with
    Go's zero values next to an error. *)
Definition KeylessRowsFromTuples_of (s : Schema) (key val : Tuple)
  : option Row * Z * option error :=
  match decode key val s with
  | inl e => (None, 0, Some e)
  | inr (r, n) => (Some r, n, None)
  end.

(** ** Assignment Validator *)

Definition hex_digit (c : ascii) : option N :=
  let n := N_of_ascii c in
  if ((48 <=? n) && (n <=? 57))%N then Some (n - 48)%N
  else if ((97 <=? n) && (n <=? 102))%N then Some (n - 87)%N
  else if ((65 <=? n) && (n <=? 70))%N then Some (n - 55)%N
  else None.

Definition is_hyphen_pos (pos : nat) : bool :=
  (pos =? 8)%nat || (pos =? 13)%nat || (pos =? 18)%nat || (pos =? 23)%nat.

(** A UUID in its 36-character form 8-4-4-4-12, read from position
    [pos]. *)
Fixpoint parse_uuid_from (pos : nat) (s : string) (acc : N) : option N :=
  match s with
  | EmptyString => if (pos =? 36)%nat then Some acc else None
  | String c s' =>
      if is_hyphen_pos pos then
        if Ascii.eqb c "-" then parse_uuid_from (S pos) s' acc else None
      else
        match hex_digit c with
        | Some d => parse_uuid_from (S pos) s' (acc * 16 + d)%N
        | None => None
        end
  end.

Definition parse_uuid (s : string) : option N := parse_uuid_from 0 s 0%N.

(** Modelled from the spec: the fixed compatibility table of the
    Assignment Validator, read off the accepted and the rejected
    assignments of [TestExecuteUpdate].  A literal out of the range of the
    column's integer type is a mismatch, never a clamp. *)
Definition coerce (t : ColType) (l : Literal) : option Value :=
  match t, l with
  | TBool, LBool b => Some (VBool b)
  | TInt, LInt z =>
      if (- 2 ^ 63 <=? z) && (z <? 2 ^ 63) then Some (VInt z) else None
  | TUint, LInt z =>
      if (0 <=? z) && (z <? 2 ^ 64) then Some (VUint (Z.to_N z)) else None
  | TString, LString s => Some (VString s)
  | TUuid, LString s => VUuid <$> parse_uuid s
  | _, _ => None
  end.

Definition find_column (s : Schema) (tag : N) : option Column :=
  List.find (fun c => N.eqb (col_tag c) tag) s.

(** An assignment of an UPDATE: the column's tag and the literal. *)
Definition Assignment : Type := N * Literal.

(** Modelled from the spec: the Assignment Validator.  A null literal for
    a NOT NULL column is a [NullConstraintViolation]; a literal with no
    coercion to the column's type is a [TypeMismatchError]. *)
Definition validate (s : Schema) (a : Assignment) : error + Value :=
  match find_column s a.1 with
  | None => inl (Errorf "unknown column")
  | Some c =>
      match a.2 with
      | LNull =>
          if col_nullable c then inr VNull
          else inl (NullConstraintViolation a.1)
      | l =>
          match coerce (col_type c) l with
          | Some v => inr v
          | None => inl (TypeMismatchError a.1 l (col_type c))
          end
      end
  end.

(** Modelled from the spec: the candidate mutated row of step 3 of the
    Update Engine: every assignment, validated, applied in order. *)
Fixpoint apply_assignments (s : Schema) (assigns : list Assignment) (r : Row)
  : error + Row :=
  match assigns with
  | [] => inr r
  | a :: rest =>
      match validate s a with
      | inl e => inl e
      | inr v => apply_assignments s rest (<[a.1 := v]> r)
      end
  end.

(** The first element of a list that occurs again later in it. *)
Fixpoint first_duplicate {A} `{EqDecision A} (l : list A) : option A :=
  match l with
  | [] => None
  | x :: l' => if bool_decide (x ∈ l') then Some x else first_duplicate l'
  end.

(** ** Point operations of the map *)

(** Modelled from the spec: point lookup, removal and write of
    [types.Map], over the model's list of entries. *)

Fixpoint Map_lookup (k : Tuple) (m : Map) : option Tuple :=
  match m with
  | [] => None
  | e :: m' => if bool_decide (e.1 = k) then Some e.2 else Map_lookup k m'
  end.

Fixpoint Map_remove (k : Tuple) (m : Map) : Map :=
  match m with
  | [] => []
  | e :: m' =>
      if bool_decide (e.1 = k) then Map_remove k m' else e :: Map_remove k m'
  end.

(** Writing [k -> v]: the entry takes its place in key order and replaces
    an entry of the same key. *)
Fixpoint Map_insert (k v : Tuple) (m : Map) : Map :=
  match m with
  | [] => [(k, v)]
  | e :: m' =>
      match Tuple_compare k e.1 with
      | Lt => (k, v) :: m
      | Eq => (k, v) :: m'
      | Gt => e :: Map_insert k v m'
      end
  end.

(** ** Update Engine *)

(** Modelled from the spec: a Table Snapshot, the pair of a map and a
    schema. *)
Record Snapshot : Type := mkSnapshot {
  snap_rows : Map;
  snap_schema : Schema
}.

(** Modelled from the spec: the Update Result. *)
Record UpdateResult : Type := mkUpdateResult {
  newSnapshot : Snapshot;
  rowsUpdated : Z;
  rowsUnchanged : Z;
  errorsIgnored : Z
}.

(** Modelled from the spec: the full scan of step 2 of the Update Engine:
    every logical row with the key of its map entry, in key order, a
    keyless row as often as its count says. *)
Fixpoint scan (m : Map) (s : Schema) : error + list (Tuple * Row) :=
  match m with
  | [] => inr []
  | e :: m' =>
      match decode e.1 e.2 s with
      | inl err => inl err
      | inr (r, n) =>
          match scan m' s with
          | inl err => inl err
          | inr rows => inr (replicate (Z.to_nat n) (e.1, r) ++ rows)
          end
      end
  end.

(** The field of a row under a column tag: a column the row does not
    bind is null. *)
Definition field (r : Row) (t : N) : Value := default VNull (r !! t).

(** Modelled from the spec: the comparison of step 3 of the Update
    Engine, "every field of the candidate equals the corresponding field
    of the original row"; a column bound to null and a column not bound
    are the same field. *)
Definition fields_equal (a b : Row) : bool :=
  bool_decide (set_Forall (fun t => field a t = field b t) (dom a ∪ dom b)).

(** Modelled from the spec: what step 3 of the Update Engine decides for
    one scanned row: the predicate does not hold; it holds and the
    candidate equals the row; or a staged change
    [{oldKey, newKey, newRow}]. *)
Inductive RowOutcome : Type :=
  | Skipped (key : Tuple)
  | Unchanged (key : Tuple)
  | Changed (oldKey newKey : Tuple) (newRow : Row).

Definition classify (s : Schema) (pred : Row -> bool)
    (assigns : list Assignment) (kr : Tuple * Row) : error + RowOutcome :=
  if pred kr.2 then
    match apply_assignments s assigns kr.2 with
    | inl e => inl e
    | inr c =>
        if fields_equal c kr.2 then inr (Unchanged kr.1)
        else inr (Changed kr.1 (encode c 1 s).1 c)
    end
  else inr (Skipped kr.1).

Fixpoint classify_all (s : Schema) (pred : Row -> bool)
    (assigns : list Assignment) (rows : list (Tuple * Row))
  : error + list RowOutcome :=
  match rows with
  | [] => inr []
  | kr :: rows' =>
      match classify s pred assigns kr with
      | inl e => inl e
      | inr o =>
          match classify_all s pred assigns rows' with
          | inl e => inl e
          | inr os => inr (o :: os)
          end
      end
  end.

Definition staged_change (o : RowOutcome) : option (Tuple * Tuple * Row) :=
  match o with
  | Changed ok nk nr => Some (ok, nk, nr)
  | _ => None
  end.

Definition untouched_key (o : RowOutcome) : option Tuple :=
  match o with
  | Skipped k | Unchanged k => Some k
  | Changed _ _ _ => None
  end.

Definition is_unchanged (o : RowOutcome) : bool :=
  match o with Unchanged _ => true | _ => false end.

Definition staged (outs : list RowOutcome) : list (Tuple * Tuple * Row) :=
  omap staged_change outs.

(** Modelled from the spec: the Collision Detector.  The resulting primary
    keys are the staged new keys plus the untouched existing keys; a key
    that appears more than once is a collision.  A keyless table has no
    primary key to collide on. *)
Definition detect_collision (s : Schema) (outs : list RowOutcome)
  : option Tuple :=
  if is_keyless s then None
  else first_duplicate (((fun c => c.1.2) <$> staged outs)
                        ++ omap untouched_key outs).

(** Modelled from the spec: inserting one staged row (step 5 of the
    Update Engine): with count 1, or, in a keyless table where an
    identical row is already there, with the counts summed. *)
Definition commit_insert (s : Schema) (m : Map) (c : Tuple * Tuple * Row)
  : Map :=
  let nk := c.1.2 in
  let nr := c.2 in
  let fresh := Map_insert nk (encode nr 1 s).2 m in
  if is_keyless s then
    match Map_lookup nk m with
    | Some v =>
        match decode nk v s with
        | inr (r, n) =>
            if fields_equal r nr
            then Map_insert nk (encode nr (n + 1) s).2 m
            else fresh
        | inl _ => fresh
        end
    | None => fresh
    end
  else fresh.

(** Modelled from the spec: step 5 of the Update Engine: every staged old
    key removed, then every staged row inserted. *)
Definition commit (s : Schema) (m : Map) (st : list (Tuple * Tuple * Row))
  : Map :=
  foldl (commit_insert s) (foldl (fun m c => Map_remove c.1.1 m) m st) st.

(** The outcome of a rejected statement: the snapshot as it was, nothing
    counted, and the error. *)
Definition rejected (snap : Snapshot) (e : error)
  : UpdateResult * option error :=
  (mkUpdateResult snap 0 0 0, Some e).

(** Modelled from the spec: [executeUpdate] of the Update Engine (package
    [sql], of which only the test is in this slice), steps 1 to 6 of its
    algorithm.  The schema is the snapshot's. *)
Definition executeUpdate (snap : Snapshot) (pred : Row -> bool)
    (assigns : list Assignment) : UpdateResult * option error :=
  let s := snap_schema snap in
  match first_duplicate assigns.*1 with
  | Some t => rejected snap (DuplicateAssignmentColumnError t)
  | None =>
      match scan (snap_rows snap) s with
      | inl e => rejected snap e
      | inr rows =>
          match classify_all s pred assigns rows with
          | inl e => rejected snap e
          | inr outs =>
              match detect_collision s outs with
              | Some k => rejected snap (PrimaryKeyCollisionError k)
              | None =>
                  (mkUpdateResult
                     (mkSnapshot (commit s (snap_rows snap) (staged outs)) s)
                     (Z.of_nat (length (staged outs)))
                     (Z.of_nat (length (List.filter is_unchanged outs)))
                     0,
                   None)
              end
          end
      end
  end.

(** ** The table of sqlupdate_test.go *)

(** Modelled from the spec: the fixtures of [TestExecuteUpdate]
    ([peopleTestSchema], [homer] ... [barney], [createTestDatabase]), which
    the test file uses and another file of the package declares; the
    [rating] column, a float, is left out. *)
Definition idTag : N := 0.
Definition firstTag : N := 1.
Definition lastTag : N := 2.
Definition isMarriedTag : N := 3.
Definition ageTag : N := 4.
Definition uuidTag : N := 7.
Definition numEpisodesTag : N := 8.

Definition peopleTestSchema : Schema :=
  [ mkColumn idTag TInt false true;
    mkColumn firstTag TString false false;
    mkColumn lastTag TString false false;
    mkColumn isMarriedTag TBool true false;
    mkColumn ageTag TInt true false;
    mkColumn uuidTag TUuid true false;
    mkColumn numEpisodesTag TUint true false ].

Definition newPeopleRow (id : Z) (first last : string) (isMarried : bool)
    (age : Z) : Row :=
  list_to_map
    [ (idTag, VInt id); (firstTag, VString first); (lastTag, VString last);
      (isMarriedTag, VBool isMarried); (ageTag, VInt age);
      (uuidTag, VNull); (numEpisodesTag, VNull) ].

Definition homer : Row := newPeopleRow 0 "Homer" "Simpson" true 40.
Definition marge : Row := newPeopleRow 1 "Marge" "Simpson" true 38.
Definition bart : Row := newPeopleRow 2 "Bart" "Simpson" false 10.
Definition lisa : Row := newPeopleRow 3 "Lisa" "Simpson" false 8.
Definition moe : Row := newPeopleRow 4 "Moe" "Szyslak" false 48.
Definition barney : Row := newPeopleRow 5 "Barney" "Gumble" false 40.

Definition allPeopleRows : list Row := [homer; marge; bart; lisa; moe; barney].

(** The map that holds the rows [rows] of schema [s], each once. *)
Definition table_of_rows (s : Schema) (rows : list Row) : Map :=
  foldl (fun m r => Map_insert (encode r 1 s).1 (encode r 1 s).2 m) [] rows.

Definition peopleSnapshot : Snapshot :=
  mkSnapshot (table_of_rows peopleTestSchema allPeopleRows) peopleTestSchema.

(** [mutateRow] of the test: the row with some columns replaced. *)
Definition mutateRow (r : Row) (changes : list (N * Value)) : Row :=
  foldl (fun r c => <[c.1 := c.2]> r) r changes.

(** The row of a snapshot under the key of [r], decoded. *)
Definition GetRow (snap : Snapshot) (r : Row) : option Row :=
  let s := snap_schema snap in
  match Map_lookup (encode r 1 s).1 (snap_rows snap) with
  | None => None
  | Some v =>
      match decode (encode r 1 s).1 v s with
      | inl _ => None
      | inr (r', _) => Some r'
      end
  end.

(** Column [tag] of a row holds [v]. *)
Definition col_is (tag : N) (v : Value) (r : Row) : bool :=
  bool_decide (r !! tag = Some v).

(** A WHERE clause that compares the integer column [tag]. *)
Definition col_int (tag : N) (test : Z -> bool) (r : Row) : bool :=
  match r !! tag with
  | Some (VInt z) => test z
  | _ => false
  end.

(** [findRowIndex] of the test: the updated row that stands for [r], found
    by its id. *)
Definition findRow (r : Row) (updatedRows : list Row) : option Row :=
  List.find (fun u => bool_decide (u !! idTag = r !! idTag)) updatedRows.

(** The assertions of a case of [TestExecuteUpdate] that expects no
    error: the three counters, and every row of [allPeopleRows] found in
    the new table under its key, in its updated form if the case lists
    one and as it was otherwise. *)
Definition test_passes (out : UpdateResult * option error)
    (updatedRows : list Row) (nUpdated nUnchanged : Z) : bool :=
  match out.2 with
  | Some _ => false
  | None =>
      (rowsUpdated out.1 =? nUpdated)
      && (rowsUnchanged out.1 =? nUnchanged)
      && (errorsIgnored out.1 =? 0)
      && forallb
           (fun r =>
              let expectedRow := default r (findRow r updatedRows) in
              bool_decide (GetRow (newSnapshot out.1) expectedRow
                           = Some expectedRow))
           allPeopleRows
  end.

(** The assertion of a case that sets [expectedErr]. *)
Definition test_fails (out : UpdateResult * option error) : bool :=
  match out.2 with
  | Some _ => true
  | None => false
  end.

(** ** A keyless table *)

Definition pairSchema : Schema :=
  [ mkColumn 1 TString true false; mkColumn 2 TInt true false ].

Definition pairRow (name : string) (n : Z) : Row :=
  list_to_map [ (1%N, VString name); (2%N, VInt n) ].

(** Three physical entries: a row stored once, one stored three times and
    one stored twice. *)
Definition pairMap : Map :=
  [ (encode (pairRow "a" 1) 1 pairSchema);
    (encode (pairRow "b" 2) 3 pairSchema);
    (encode (pairRow "c" 3) 2 pairSchema) ].

Definition pairTable : Table := mkTable (pairMap, None).


(** ** Vocabulary of the statements *)

Section Expansion.

Variable KeylessRowsFromTuples :
  Tuple -> Tuple -> option Row * Z * option error.

(** The duplicate count the codec reads off a physical entry. *)
Definition entry_count (e : Tuple * Tuple) : Z :=
  (KeylessRowsFromTuples e.1 e.2).1.2.

(** The row the codec reads off a physical entry. *)
Definition entry_row (e : Tuple * Tuple) : option Row :=
  (KeylessRowsFromTuples e.1 e.2).1.1.

(** A physical entry of a keyless table is well formed when the codec
    decodes it without error to a count between 1 and the largest
    [uint64]. *)
Definition entry_wf (e : Tuple * Tuple) : bool :=
  match (KeylessRowsFromTuples e.1 e.2).2 with
  | Some _ => false
  | None => (1 <=? entry_count e) && (entry_count e <? uint64_modulus)
  end.

Definition keyless_wf (m : Map) : bool := forallb entry_wf m.

(** The logical rows of a keyless map: each entry's row, with the
    entry's key, as often as its count says, in the order of the map. *)
Definition expand (m : Map) : list (Tuple * option Row) :=
  m ≫= (fun e => replicate (Z.to_nat (entry_count e)) (e.1, entry_row e)).

(** The sum of the duplicate counts of a map. *)
Definition sum_counts (m : Map) : Z :=
  foldr (fun e acc => entry_count e + acc) 0 m.

(** What a call of [ReadRow] returns when it emits the row [r]. *)
Definition emitted (kr : Tuple * option Row) : option Row * option error :=
  (kr.2, None).

(** The row sequence of a constructor's result: what the first [n]
    calls of [ReadRow] on the reader return (nothing without a
    reader). *)
Definition row_sequence (n : nat)
    (c : option keylessTableReader * option error)
  : list (option Row * option error) :=
  match c.1 with
  | Some rdr => (ReadRows KeylessRowsFromTuples n rdr).1
  | None => []
  end.

End Expansion.


(** The statement selects the row [r] and its candidate differs from it. *)
Definition selected_changed (s : Schema) (pred : Row -> bool)
    (assigns : list Assignment) (r : Row) : bool :=
  pred r &&
  match apply_assignments s assigns r with
  | inr c => negb (fields_equal c r)
  | inl _ => false
  end.

(** The key a scanned row has once the statement is through with it. *)
Definition resulting_key (o : RowOutcome) : Tuple :=
  match o with
  | Skipped k | Unchanged k => k
  | Changed _ nk _ => nk
  end.

(** The row of a physical entry under a primary key. *)
Definition pk_row (s : Schema) (e : Tuple * Tuple) : Row :=
  row_of_values (pk_cols s) e.1 ∪ row_of_values (nonpk_cols s) e.2.

(** ** Vocabulary of the further statements *)

(** What [ReadSqlRow] makes of the pair [ReadRow] returned: the error as
    it is, or the conversion of the row under the schema [s]. *)
Definition sql_result {SqlRow : Type}
    (DoltRowToSqlRow : option Row -> Schema -> option SqlRow * option error)
    (s : Schema) (out : option Row * option error)
  : option SqlRow * option error :=
  match out.2 with
  | Some e => (None, Some e)
  | None => DoltRowToSqlRow out.1 s
  end.

(** [n] successive calls of [ReadSqlRow]. *)
Fixpoint ReadSqlRows {SqlRow : Type}
    (KeylessRowsFromTuples : Tuple -> Tuple -> option Row * Z * option error)
    (DoltRowToSqlRow : option Row -> Schema -> option SqlRow * option error)
    (n : nat) (rdr : keylessTableReader)
  : list (option SqlRow * option error) * keylessTableReader :=
  match n with
  | O => ([], rdr)
  | S n' =>
      let '(rdr', out) := ReadSqlRow KeylessRowsFromTuples DoltRowToSqlRow rdr in
      let '(outs, rdr'') :=
        ReadSqlRows KeylessRowsFromTuples DoltRowToSqlRow n' rdr' in
      (out :: outs, rdr'')
  end.

(** Two readers have the same reads ahead of them: the same entries still
    to come, the same count of buffered duplicates and, while one is
    buffered, the same buffered row. *)
Definition same_reads (a b : keylessTableReader) : Prop :=
  iter_pending (iter a) = iter_pending (iter b)
  /\ duplicates a = duplicates b
  /\ (duplicates a <> 0 -> row a = row b).

(** A result of a constructor keeps Go's convention when it is a reader
    and no error, or an error and no reader; the reader is then fresh:
    nothing buffered, and the schema it was given. *)
Definition constructed (s : Schema)
    (c : option keylessTableReader * option error) : Prop :=
  match c with
  | (Some rdr, None) =>
      GetSchema rdr = s /\ row rdr = None /\ duplicates rdr = 0
  | (None, Some _) => True
  | _ => False
  end.

(** A codec for the tests of the reader: the leading field of the value
    is the count as it stands (no check), the key is the row's only
    column; a value that does not start with a count is an error. *)
Definition rawCodec (key val : Tuple) : option Row * Z * option error :=
  match val with
  | VUint n :: _ => (Some {[ 1%N := default VNull (head key) ]}, Z.of_N n, None)
  | _ => (None, 0, Some MalformedRowError)
  end.

(** * Properties *)

(** ** Facts about the key order *)

Lemma Ascii_compare_refl (c : ascii) : Ascii.compare c c = Eq.
Proof. unfold Ascii.compare. apply N.compare_refl. Qed.

Lemma String_compare_refl (s : string) : String.compare s s = Eq.
Proof.
  induction s as [|c s IH]; simpl; [done|].
  by rewrite Ascii_compare_refl.
Qed.

Lemma Value_compare_refl (v : Value) : Value_compare v v = Eq.
Proof.
  destruct v as [|b|z|n|s|u]; simpl;
    auto using Z.compare_refl, N.compare_refl, String_compare_refl.
  by destruct b.
Qed.

Lemma Tuple_compare_refl (t : Tuple) : Tuple_compare t t = Eq.
Proof.
  induction t as [|v t IH]; simpl; [done|].
  by rewrite Value_compare_refl.
Qed.

Lemma key_le_refl (k : Tuple) : key_le k k.
Proof. unfold key_le, key_leb. by rewrite Tuple_compare_refl. Qed.

Lemma key_ltb_leb (a b : Tuple) : key_ltb a b = true -> key_le a b.
Proof. unfold key_le, key_leb, key_ltb. by destruct (Tuple_compare a b). Qed.

(** ** Facts about [ReadRow] *)

Section ReaderFacts.

Variable dec : Tuple -> Tuple -> option Row * Z * option error.

Lemma wrap64_small (z : Z) : 0 <= z < uint64_modulus -> wrap64 z = z.
Proof. intros H. unfold wrap64. by apply Z.mod_small. Qed.

(** While a duplicate is buffered, a call returns the buffered row and
    takes one off the count. *)
Lemma ReadRow_buffered (rdr : keylessTableReader) :
  0 < duplicates rdr < uint64_modulus ->
  ReadRow dec rdr
  = (mkReader (iter rdr) (sch rdr) (row rdr) (duplicates rdr - 1),
     (row rdr, None)).
Proof.
  intros H. unfold ReadRow.
  destruct (Z.eqb_spec (duplicates rdr) 0) as [E|_]; [lia|].
  rewrite wrap64_small by lia. done.
Qed.

Lemma ReadRows_app (a b : nat) (rdr : keylessTableReader) :
  ReadRows dec (a + b) rdr
  = ((ReadRows dec a rdr).1 ++ (ReadRows dec b (ReadRows dec a rdr).2).1,
     (ReadRows dec b (ReadRows dec a rdr).2).2).
Proof.
  revert rdr. induction a as [|a IH]; intros rdr; simpl.
  - by destruct (ReadRows dec b rdr).
  - destruct (ReadRow dec rdr) as [rdr' out].
    rewrite IH. by destruct (ReadRows dec a rdr').
Qed.

(** Draining the buffered duplicates: [d] calls return the buffered row
    [d] times and leave the count at 0. *)
Lemma ReadRows_drain (d : nat) it s r :
  Z.of_nat d < uint64_modulus ->
  ReadRows dec d (mkReader it s r (Z.of_nat d))
  = (replicate d (r, None), mkReader it s r 0).
Proof.
  induction d as [|d IH]; intros Hd; [done|].
  cbn [ReadRows]. rewrite ReadRow_buffered by (simpl; lia). simpl.
  replace (Z.of_nat (S d) - 1) with (Z.of_nat d) by lia.
  rewrite IH by lia. done.
Qed.

(** The first call on an entry that decodes to [(r, n)]: the row is
    returned and [n - 1] copies stay buffered. *)
Lemma ReadRow_entry kind k v rest s r0 r n :
  dec k v = (r, n, None) ->
  1 <= n < uint64_modulus ->
  ReadRow dec (mkReader (mkIter kind (Yield k v :: rest)) s r0 0)
  = (mkReader (mkIter kind rest) s r (n - 1), (r, None)).
Proof.
  intros Hdec Hn. unfold ReadRow. simpl. rewrite Hdec.
  rewrite wrap64_small by lia. done.
Qed.

Lemma entry_wf_inv (e : Tuple * Tuple) :
  entry_wf dec e = true ->
  dec e.1 e.2 = (entry_row dec e, entry_count dec e, None)
  /\ 1 <= entry_count dec e < uint64_modulus.
Proof.
  unfold entry_wf, entry_row, entry_count.
  destruct (dec e.1 e.2) as [[r n] [err|]]; simpl; [done|].
  intros H. apply andb_true_iff in H as [H1 H2].
  apply Z.leb_le in H1. apply Z.ltb_lt in H2. done.
Qed.

Lemma sum_counts_nonneg (m : Map) :
  keyless_wf dec m = true -> 0 <= sum_counts dec m.
Proof.
  induction m as [|e m IH]; [simpl; lia|].
  intros H. cbn [keyless_wf forallb] in H.
  apply andb_true_iff in H as [He Hm].
  destruct (entry_wf_inv e He) as [_ Hn]. specialize (IH Hm).
  unfold sum_counts in *. cbn [foldr]. lia.
Qed.

(** A scan of well-formed entries: as many calls as the counts sum to
    return the expansion of the entries and leave the reader at the end
    of the map with nothing buffered. *)
Lemma ReadRows_scan kind (m : Map) s r0 :
  keyless_wf dec m = true ->
  exists r1,
    ReadRows dec (Z.to_nat (sum_counts dec m))
      (mkReader (mkIter kind (entry_step <$> m)) s r0 0)
    = (emitted <$> expand dec m, mkReader (mkIter kind []) s r1 0).
Proof.
  revert r0. induction m as [|e m IH]; intros r0 Hwf.
  - exists r0. done.
  - cbn [keyless_wf forallb] in Hwf.
    apply andb_true_iff in Hwf as [He Hm].
    destruct (entry_wf_inv e He) as [Hdec Hn].
    destruct (IH (entry_row dec e) Hm) as [r1 IH'].
    exists r1.
    pose proof (sum_counts_nonneg m Hm) as Hs.
    set (c := Z.to_nat (entry_count dec e - 1)).
    assert (Hc : entry_count dec e - 1 = Z.of_nat c) by lia.
    cbn [sum_counts foldr]. fold (sum_counts dec m).
    replace (Z.to_nat (entry_count dec e + sum_counts dec m))
      with (S (c + Z.to_nat (sum_counts dec m)))%nat by lia.
    cbn [ReadRows fmap list_fmap]. unfold entry_step at 1.
    rewrite (ReadRow_entry kind e.1 e.2 _ s r0 _ _ Hdec Hn), Hc.
    rewrite ReadRows_app, ReadRows_drain by lia.
    cbn [fst snd]. rewrite IH'. cbn [fst snd].
    unfold expand. cbn [mbind list_bind]. fold (expand dec m).
    rewrite fmap_app.
    replace (Z.to_nat (entry_count dec e)) with (S c) by lia.
    cbn [replicate fmap list_fmap]. rewrite fmap_replicate. done.
Qed.

(** At the end of the map, with nothing buffered, a call signals the end
    of the sequence. *)
Lemma ReadRow_end kind s r0 :
  ReadRow dec (mkReader (mkIter kind []) s r0 0)
  = (mkReader (mkIter kind []) s r0 0, (None, Some io_EOF)).
Proof. done. Qed.

Lemma length_expand (m : Map) :
  keyless_wf dec m = true ->
  Z.of_nat (length (expand dec m)) = sum_counts dec m.
Proof.
  induction m as [|e m IH]; [done|].
  intros H. cbn [keyless_wf forallb] in H.
  apply andb_true_iff in H as [He Hm].
  destruct (entry_wf_inv e He) as [_ Hn].
  unfold expand. cbn [mbind list_bind]. fold (expand dec m).
  rewrite length_app, length_replicate, Nat2Z.inj_add, IH by done.
  unfold sum_counts. cbn [foldr]. lia.
Qed.

End ReaderFacts.

(** ** The order of emission *)

Section EmissionOrder.

Variable dec : Tuple -> Tuple -> option Row * Z * option error.

Lemma Sorted_replicate_app (k : Tuple) (c : nat) (l : list Tuple) :
  Sorted key_le l -> HdRel key_le k l ->
  Sorted key_le (replicate c k ++ l).
Proof.
  intros Hl Hk. induction c as [|c IH]; [done|].
  simpl. constructor; [done|].
  destruct c; simpl; [done|]. constructor. apply key_le_refl.
Qed.

Lemma expand_cons (e : Tuple * Tuple) (m : Map) :
  expand dec (e :: m)
  = replicate (Z.to_nat (entry_count dec e)) (e.1, entry_row dec e)
    ++ expand dec m.
Proof. done. Qed.

Lemma expand_keys_head (e : Tuple * Tuple) (m : Map) :
  entry_wf dec e = true ->
  exists l, (expand dec (e :: m)).*1 = e.1 :: l.
Proof.
  intros He. destruct (entry_wf_inv dec e He) as [_ Hn].
  rewrite expand_cons, fmap_app, fmap_replicate.
  replace (Z.to_nat (entry_count dec e))
    with (S (Z.to_nat (entry_count dec e - 1))) by lia.
  simpl. eauto.
Qed.

(** The keys under the emitted rows never decrease. *)
Lemma Sorted_expand (m : Map) :
  Map_sorted m = true -> keyless_wf dec m = true ->
  Sorted key_le (expand dec m).*1.
Proof.
  induction m as [|e m IH]; intros Hs Hwf; [constructor|].
  cbn [keyless_wf forallb] in Hwf. apply andb_true_iff in Hwf as [He Hm].
  rewrite expand_cons, fmap_app, fmap_replicate. cbn [fst].
  destruct m as [|e' m'].
  - apply Sorted_replicate_app; constructor.
  - cbn [Map_sorted] in Hs. apply andb_true_iff in Hs as [Hlt Hs].
    apply Sorted_replicate_app; [by apply IH|].
    cbn [keyless_wf forallb] in Hm. apply andb_true_iff in Hm as [He' _].
    destruct (expand_keys_head e' m' He') as [l ->].
    constructor. by apply key_ltb_leb.
Qed.

End EmissionOrder.

(** ** Claims about the reader *)

(** C1.  A keyless table read from the beginning: the calls of [ReadRow]
    return each entry's row exactly as often as the entry's stored
    duplicate count says, entry after entry in the order of the map, so
    under keys that never decrease; that makes as many rows as the counts
    sum to, and the call after them signals [io.EOF].  A call made while a
    duplicate is buffered returns the buffered row and lowers the
    remaining count by exactly one. *)
Theorem ReadRow_full_scan
    (dec : Tuple -> Tuple -> option Row * Z * option error)
    (tbl : Table) (m : Map) (s : Schema) (buffered : bool) :
  GetRowData tbl = (m, None) ->
  Map_sorted m = true ->
  keyless_wf dec m = true ->
  exists rdr,
    newKeylessTableReader tbl s buffered = (Some rdr, None)
    /\ (ReadRows dec (Z.to_nat (sum_counts dec m)) rdr).1
       = emitted <$> expand dec m
    /\ Z.of_nat (length (expand dec m)) = sum_counts dec m
    /\ Sorted key_le (expand dec m).*1
    /\ (ReadRow dec (ReadRows dec (Z.to_nat (sum_counts dec m)) rdr).2).2
       = (None, Some io_EOF)
    /\ (forall rdr' : keylessTableReader,
          0 < duplicates rdr' < uint64_modulus ->
          ReadRow dec rdr'
          = (mkReader (iter rdr') (sch rdr') (row rdr') (duplicates rdr' - 1),
             (row rdr', None))).
Proof.
  intros Hrows Hsorted Hwf.
  unfold newKeylessTableReader. rewrite Hrows.
  set (kind := if buffered then PlainIterator else BufferedIterator).
  exists (freshReader (mkIter kind (entry_step <$> m)) s).
  split; [by destruct buffered|].
  destruct (ReadRows_scan dec kind m s None Hwf) as [r1 Hscan].
  unfold freshReader. rewrite Hscan. cbn [fst snd].
  repeat split.
  - by apply length_expand.
  - by apply Sorted_expand.
  - intros rdr' Hd. by apply ReadRow_buffered.
Qed.

Lemma ReadRow_full_scan_witness :
  exists rdr,
    newKeylessTableReader pairTable pairSchema true = (Some rdr, None)
    /\ (ReadRows (KeylessRowsFromTuples_of pairSchema) 6 rdr).1
       = emitted <$> expand (KeylessRowsFromTuples_of pairSchema) pairMap.
Proof.
  destruct (ReadRow_full_scan (KeylessRowsFromTuples_of pairSchema)
              pairTable pairMap pairSchema true)
    as (rdr & Hnew & Hrows & _); [reflexivity | reflexivity | reflexivity |].
  exists rdr. split; [exact Hnew | exact Hrows].
Defined.

(** C6, as the code has it.  [newKeylessTableReader] picks the iterator
    with the branches the other way round: called with [buffered = true]
    it builds the iterator with the plain [Map.Iterator], and called with
    [buffered = false] with [Map.BufferedIterator]. *)
Theorem newKeylessTableReader_iterator_kind (m : Map) (s : Schema) :
  newKeylessTableReader (mkTable (m, None)) s true
  = (Some (freshReader (mkIter PlainIterator (entry_step <$> m)) s), None)
  /\ newKeylessTableReader (mkTable (m, None)) s false
     = (Some (freshReader (mkIter BufferedIterator (entry_step <$> m)) s),
        None).
Proof. split; unfold newKeylessTableReader; simpl; reflexivity. Qed.

(** C7.  A reader built at the physical offset [start] returns the rows
    of every entry from that offset on, each as often as its full stored
    count says, and then signals [io.EOF]: in particular the entry at the
    offset itself comes out in all its copies, whatever share of them an
    earlier partition was meant to read. *)
Theorem partition_reader_emits_full_counts
    (dec : Tuple -> Tuple -> option Row * Z * option error)
    (tbl : Table) (m : Map) (s : Schema) (start end_ : Z) :
  GetRowData tbl = (m, None) ->
  keyless_wf dec (drop (Z.to_nat start) m) = true ->
  exists rdr,
    newKeylessTableReaderForPartition tbl s start end_ = (Some rdr, None)
    /\ (ReadRows dec (Z.to_nat (sum_counts dec (drop (Z.to_nat start) m)))
          rdr).1
       = emitted <$> expand dec (drop (Z.to_nat start) m)
    /\ (ReadRow dec
          (ReadRows dec (Z.to_nat (sum_counts dec (drop (Z.to_nat start) m)))
             rdr).2).2
       = (None, Some io_EOF)
    /\ (forall e rest,
          drop (Z.to_nat start) m = e :: rest ->
          expand dec (drop (Z.to_nat start) m)
          = replicate (Z.to_nat (entry_count dec e)) (e.1, entry_row dec e)
            ++ expand dec rest).
Proof.
  intros Hrows Hwf.
  unfold newKeylessTableReaderForPartition. rewrite Hrows.
  eexists. split; [reflexivity|].
  destruct (ReadRows_scan dec BufferedIterator _ s None Hwf) as [r1 Hscan].
  unfold freshReader. rewrite Hscan. cbn [fst snd].
  repeat split.
  intros e rest ->. apply expand_cons.
Qed.

Lemma partition_reader_emits_full_counts_witness :
  exists rdr,
    newKeylessTableReaderForPartition pairTable pairSchema 1 2
    = (Some rdr, None)
    /\ (ReadRows (KeylessRowsFromTuples_of pairSchema) 5 rdr).1
       = replicate 3 (Some (pairRow "b" 2), None)
         ++ replicate 2 (Some (pairRow "c" 3), None).
Proof.
  destruct (partition_reader_emits_full_counts
              (KeylessRowsFromTuples_of pairSchema)
              pairTable pairMap pairSchema 1 2)
    as (rdr & Hnew & Hrows & _); [reflexivity | reflexivity |].
  exists rdr. split; [exact Hnew | exact Hrows].
Defined.

(** C8.  Whatever the table, the schema and the ranges,
    [newKeylessTableReaderForRanges] returns no reader and the error
    "newKeylessTableReaderForRanges is unimplemented"; it reads nothing of
    its arguments. *)
Theorem newKeylessTableReaderForRanges_unimplemented
    (ReadRange : Type) (tbl : Table) (s : Schema) (ranges : list ReadRange) :
  newKeylessTableReaderForRanges tbl s ranges
  = (None, Some (NotImplementedError "newKeylessTableReaderForRanges")).
Proof. unfold newKeylessTableReaderForRanges, NotImplementedError. reflexivity. Qed.

(** C10.  The end bound of a partition plays no part: two partition
    readers of one table, schema and start offset are the same reader
    whatever their end bounds, so any number of calls returns the same
    rows from both, and the reader's iterator holds every entry from the
    start offset to the end of the map.  Read to the end, either reader
    returns the rows of all those entries, each with its full count, and
    only then [io.EOF]: the rows of the entries between the start and the
    end bound come first and the rows of the entries at and past the end
    bound follow them. *)
Theorem partition_reader_ignores_end
    (dec : Tuple -> Tuple -> option Row * Z * option error)
    (tbl : Table) (s : Schema) (start end1 end2 : Z) (n : nat) :
  (newKeylessTableReaderForPartition tbl s start end1
   = newKeylessTableReaderForPartition tbl s start end2
   /\ row_sequence dec n (newKeylessTableReaderForPartition tbl s start end1)
      = row_sequence dec n
          (newKeylessTableReaderForPartition tbl s start end2)
   /\ match newKeylessTableReaderForPartition tbl s start end1 with
      | (Some rdr, _) =>
          iter_pending (iter rdr)
          = entry_step <$> drop (Z.to_nat start) (GetRowData tbl).1
      | (None, err) => err = (GetRowData tbl).2 /\ err <> None
      end)
  /\ (forall m : Map,
        GetRowData tbl = (m, None) ->
        keyless_wf dec (drop (Z.to_nat start) m) = true ->
        row_sequence dec
          (Z.to_nat (sum_counts dec (drop (Z.to_nat start) m)))
          (newKeylessTableReaderForPartition tbl s start end1)
        = emitted <$> expand dec (drop (Z.to_nat start) m)
        /\ row_sequence dec
             (Z.to_nat (sum_counts dec (drop (Z.to_nat start) m)))
             (newKeylessTableReaderForPartition tbl s start end2)
           = emitted <$> expand dec (drop (Z.to_nat start) m)
        /\ row_sequence dec
             (S (Z.to_nat (sum_counts dec (drop (Z.to_nat start) m))))
             (newKeylessTableReaderForPartition tbl s start end1)
           = (emitted <$> expand dec (drop (Z.to_nat start) m))
             ++ [(None, Some io_EOF)]
        /\ ((Z.to_nat start <= Z.to_nat end1)%nat ->
            expand dec (drop (Z.to_nat start) m)
            = expand dec
                (take (Z.to_nat end1 - Z.to_nat start)
                   (drop (Z.to_nat start) m))
              ++ expand dec (drop (Z.to_nat end1) m))).
Proof.
  split.
  - unfold newKeylessTableReaderForPartition.
    destruct (GetRowData tbl) as [rows [e|]]; simpl; auto.
  - intros m Hrows Hwf.
    unfold newKeylessTableReaderForPartition, row_sequence. rewrite Hrows.
    cbn [fst snd Map_BufferedIteratorAt]. unfold freshReader.
    destruct (ReadRows_scan dec BufferedIterator _ s None Hwf) as [r1 Hscan].
    repeat split.
    + by rewrite Hscan.
    + by rewrite Hscan.
    + replace (S (Z.to_nat (sum_counts dec (drop (Z.to_nat start) m))))
        with (Z.to_nat (sum_counts dec (drop (Z.to_nat start) m)) + 1)%nat
        by lia.
      rewrite ReadRows_app, Hscan. cbn [fst snd]. f_equal.
    + intros Hle.
      rewrite <- (take_drop (Z.to_nat end1 - Z.to_nat start)
                    (drop (Z.to_nat start) m)) at 1.
      rewrite drop_drop.
      replace (Z.to_nat start + (Z.to_nat end1 - Z.to_nat start))%nat
        with (Z.to_nat end1) by lia.
      unfold expand. apply bind_app.
Qed.

Lemma partition_reader_ignores_end_witness :
  row_sequence (KeylessRowsFromTuples_of pairSchema) 6
    (newKeylessTableReaderForPartition pairTable pairSchema 1 2)
  = replicate 3 (Some (pairRow "b" 2), None)
    ++ replicate 2 (Some (pairRow "c" 3), None)
    ++ [(None, Some io_EOF)].
Proof.
  apply (proj2 (partition_reader_ignores_end
                  (KeylessRowsFromTuples_of pairSchema)
                  pairTable pairSchema 1 2 7 0) pairMap);
    reflexivity.
Defined.

(** ** The row codec *)

Lemma row_of_values_cons (c : Column) (cols : list Column) (r : Row) :
  row_of_values (c :: cols) (row_values r (c :: cols))
  = <[col_tag c := default VNull (r !! col_tag c)]>
      (row_of_values cols (row_values r cols)).
Proof. reflexivity. Qed.

Lemma row_of_values_lookup (cols : list Column) (r : Row) (t : N) :
  row_of_values cols (row_values r cols) !! t
  = if decide (t ∈ col_tag <$> cols) then Some (default VNull (r !! t))
    else None.
Proof.
  induction cols as [|c cols IH].
  - rewrite decide_False by set_solver. apply lookup_empty.
  - rewrite row_of_values_cons, lookup_insert.
    destruct (decide (col_tag c = t)) as [<-|Hne].
    + rewrite decide_True by set_solver. done.
    + rewrite IH. destruct (decide (t ∈ col_tag <$> cols)).
      * rewrite decide_True by set_solver. done.
      * rewrite decide_False by set_solver. done.
Qed.

Lemma elem_of_tags_split (s : Schema) (t : N) :
  t ∈ col_tag <$> s
  <-> t ∈ col_tag <$> pk_cols s \/ t ∈ col_tag <$> nonpk_cols s.
Proof.
  unfold pk_cols, nonpk_cols.
  induction s as [|c s IH]; simpl; [set_solver|].
  destruct (col_is_pk c); simpl; set_solver.
Qed.

(** Splitting a row into its key columns and the others and putting the
    two halves together again gives the row over all columns. *)
Lemma row_of_values_split (s : Schema) (r : Row) :
  row_of_values (pk_cols s) (row_values r (pk_cols s))
    ∪ row_of_values (nonpk_cols s) (row_values r (nonpk_cols s))
  = row_of_values s (row_values r s).
Proof.
  apply map_eq. intros t.
  rewrite lookup_union, !row_of_values_lookup.
  pose proof (elem_of_tags_split s t) as Hsplit.
  repeat case_decide; try done; tauto.
Qed.

(** Over a valid row, reading the columns off and binding them again
    changes nothing. *)
Lemma row_of_values_valid (s : Schema) (r : Row) :
  valid_row r s -> row_of_values s (row_values r s) = r.
Proof.
  intros Hv. apply map_eq. intros t. rewrite row_of_values_lookup.
  assert (Hdom : t ∈ col_tag <$> s <-> is_Some (r !! t)).
  { rewrite <- elem_of_dom, Hv. set_solver. }
  case_decide as Ht.
  - apply Hdom in Ht as [v ->]. done.
  - destruct (r !! t) eqn:E; [|done]. exfalso. apply Ht, Hdom. eauto.
Qed.

(** C5.  Decoding what [encode] built gives the row and the count back,
    for every row valid for the schema and every valid count (at least 1,
    and 1 under a primary key); and under a primary key [decode] always
    answers with the count 1. *)
Theorem decode_encode_round_trip :
  (forall (r : Row) (n : Z) (s : Schema),
      valid_row r s -> valid_count n s ->
      decode (encode r n s).1 (encode r n s).2 s = inr (r, n))
  /\ (forall (k v : Tuple) (s : Schema),
        is_keyless s = false -> exists r, decode k v s = inr (r, 1)).
Proof.
  split.
  - intros r n s Hr [Hn Hpk]. unfold decode, encode.
    destruct (is_keyless s) eqn:Hk; cbn [fst snd].
    + cbn [parse_count]. rewrite Z2N.id by lia.
      destruct (Z.leb_spec n 0); [lia|].
      by rewrite row_of_values_valid.
    + rewrite row_of_values_split, row_of_values_valid by done.
      by rewrite Hpk.
  - intros k v s Hk. unfold decode. rewrite Hk. eauto.
Qed.

Lemma decode_encode_round_trip_witness :
  decode (encode (pairRow "b" 2) 3 pairSchema).1
         (encode (pairRow "b" 2) 3 pairSchema).2 pairSchema
  = inr (pairRow "b" 2, 3)
  /\ decode (encode homer 1 peopleTestSchema).1
            (encode homer 1 peopleTestSchema).2 peopleTestSchema
     = inr (homer, 1).
Proof.
  split.
  - apply (proj1 decode_encode_round_trip (pairRow "b" 2) 3 pairSchema).
    + vm_compute. reflexivity.
    + split; [lia | discriminate].
  - apply (proj1 decode_encode_round_trip homer 1 peopleTestSchema).
    + vm_compute. reflexivity.
    + split; [lia | reflexivity].
Defined.

(** ** The Update Engine *)

(** C2.  When [executeUpdate] returns an error, the snapshot it hands
    back is the input snapshot itself, so a scan of it finds the same
    logical rows, and no row is counted as updated or unchanged: nothing
    of the statement is committed. *)
Theorem executeUpdate_error_keeps_snapshot
    (snap : Snapshot) (pred : Row -> bool) (assigns : list Assignment)
    (e : error) :
  (executeUpdate snap pred assigns).2 = Some e ->
  newSnapshot (executeUpdate snap pred assigns).1 = snap
  /\ scan (snap_rows (newSnapshot (executeUpdate snap pred assigns).1))
          (snap_schema (newSnapshot (executeUpdate snap pred assigns).1))
     = scan (snap_rows snap) (snap_schema snap)
  /\ rowsUpdated (executeUpdate snap pred assigns).1 = 0
  /\ rowsUnchanged (executeUpdate snap pred assigns).1 = 0.
Proof.
  unfold executeUpdate.
  destruct (first_duplicate assigns.*1) as [t|]; [by intros _|].
  destruct (scan (snap_rows snap) (snap_schema snap)) as [e1|rows] eqn:Hscan;
    [intros _; simpl; by rewrite Hscan|].
  destruct (classify_all (snap_schema snap) pred assigns rows) as [e2|outs];
    [intros _; simpl; by rewrite Hscan|].
  destruct (detect_collision (snap_schema snap) outs) as [k|];
    [intros _; simpl; by rewrite Hscan|].
  discriminate.
Qed.

Lemma executeUpdate_error_keeps_snapshot_witness :
  newSnapshot
    (executeUpdate peopleSnapshot (col_is idTag (VInt 0))
       [(firstTag, LInt 1)]).1
  = peopleSnapshot.
Proof.
  exact (proj1 (executeUpdate_error_keeps_snapshot peopleSnapshot
                  (col_is idTag (VInt 0)) [(firstTag, LInt 1)]
                  (TypeMismatchError firstTag (LInt 1) TString) eq_refl)).
Defined.

(** *** Keys that compare equal are equal *)



(** *** Point operations of the map *)







(** *** Duplicates *)

Lemma first_duplicate_None {A} `{EqDecision A} (l : list A) :
  first_duplicate l = None <-> NoDup l.
Proof.
  induction l as [|x l IH]; simpl.
  - split; [constructor | done].
  - rewrite NoDup_cons. case_bool_decide; [|tauto].
    split; [done | tauto].
Qed.

Lemma first_duplicate_Some {A} `{EqDecision A} (l : list A) :
  ~ NoDup l -> exists x, first_duplicate l = Some x.
Proof.
  intros H. destruct (first_duplicate l) eqn:E; [eauto|].
  by apply first_duplicate_None in E.
Qed.

(** *** The scan, the candidates and the outcomes *)

(** Under a primary key every entry decodes, to one logical row. *)
Lemma scan_pk (s : Schema) (m : Map) :
  is_keyless s = false ->
  scan m s = inr ((fun e => (e.1, pk_row s e)) <$> m).
Proof.
  intros Hs. induction m as [|e m IH]; simpl; [done|].
  unfold decode. rewrite Hs, IH. done.
Qed.

(** Whether the assignments pass the validator does not depend on the
    row they are applied to. *)
Lemma apply_assignments_any_row (s : Schema) (assigns : list Assignment)
    (r r' : Row) (c : Row) :
  apply_assignments s assigns r = inr c ->
  exists c', apply_assignments s assigns r' = inr c'.
Proof.
  revert r r'. induction assigns as [|a assigns IH]; intros r r'; simpl.
  - eauto.
  - destruct (validate s a) as [e|v]; [done|]. apply IH.
Qed.

Lemma classify_all_lookup (s : Schema) (pred : Row -> bool)
    (assigns : list Assignment) (rows : list (Tuple * Row))
    (outs : list RowOutcome) (i : nat) (kr : Tuple * Row) :
  classify_all s pred assigns rows = inr outs ->
  rows !! i = Some kr ->
  exists o, outs !! i = Some o /\ classify s pred assigns kr = inr o.
Proof.
  revert outs i. induction rows as [|kr0 rows IH]; intros outs i; simpl.
  - intros _ Hi. by rewrite lookup_nil in Hi.
  - destruct (classify s pred assigns kr0) as [e|o0] eqn:Hc; [done|].
    destruct (classify_all s pred assigns rows) as [e|os]; [done|].
    intros [= <-]. destruct i as [|i]; simpl.
    + intros [= <-]. eauto.
    + by apply IH.
Qed.

(** When one candidate can be built, every row is classified. *)
Lemma classify_all_total (s : Schema) (pred : Row -> bool)
    (assigns : list Assignment) (r c : Row) (rows : list (Tuple * Row)) :
  apply_assignments s assigns r = inr c ->
  exists outs, classify_all s pred assigns rows = inr outs.
Proof.
  intros Hc. induction rows as [|kr rows [outs IH]]; simpl; [eauto|].
  rewrite IH. unfold classify.
  destruct (pred kr.2); [|eauto].
  destruct (apply_assignments_any_row s assigns r kr.2 c Hc) as [c' ->].
  destruct (fields_equal c' kr.2); eauto.
Qed.

Lemma resulting_keys_perm (outs : list RowOutcome) :
  ((fun c => c.1.2) <$> staged outs) ++ omap untouched_key outs
  ≡ₚ resulting_key <$> outs.
Proof.
  unfold staged. induction outs as [|o outs IH]; [done|].
  destruct o; simpl.
  - rewrite <- IH. by rewrite Permutation_middle.
  - rewrite <- IH. by rewrite Permutation_middle.
  - by rewrite IH.
Qed.


Lemma classify_selected_changed (s : Schema) (pred : Row -> bool)
    (assigns : list Assignment) (k : Tuple) (r c : Row) :
  selected_changed s pred assigns r = true ->
  apply_assignments s assigns r = inr c ->
  classify s pred assigns (k, r) = inr (Changed k (encode c 1 s).1 c).
Proof.
  unfold selected_changed, classify. simpl. intros Hsel Hc.
  rewrite Hc in *. apply andb_true_iff in Hsel as [-> Hne].
  apply negb_true_iff in Hne. by rewrite Hne.
Qed.


Lemma classify_not_changed (s : Schema) (pred : Row -> bool)
    (assigns : list Assignment) (k : Tuple) (r : Row) (o : RowOutcome) :
  selected_changed s pred assigns r = false ->
  classify s pred assigns (k, r) = inr o ->
  resulting_key o = k.
Proof.
  unfold selected_changed, classify. simpl.
  destruct (pred r); [|by intros _ [= <-]]. simpl.
  destruct (apply_assignments s assigns r) as [e|c]; [done|].
  destruct (fields_equal c r); [by intros _ [= <-] | done].
Qed.

Lemma decode_pk (s : Schema) (e : Tuple * Tuple) (r : Row) (n : Z) :
  is_keyless s = false ->
  decode e.1 e.2 s = inr (r, n) -> r = pk_row s e /\ n = 1.
Proof. unfold decode. intros ->. by intros [= <- <-]. Qed.

(** Two scanned rows that end up under one key make the detector fire. *)
Lemma detect_collision_fires (s : Schema) (outs : list RowOutcome)
    (i j : nat) (o1 o2 : RowOutcome) :
  is_keyless s = false ->
  i <> j -> outs !! i = Some o1 -> outs !! j = Some o2 ->
  resulting_key o1 = resulting_key o2 ->
  exists k, detect_collision s outs = Some k.
Proof.
  intros Hs Hij H1 H2 Hk. unfold detect_collision. rewrite Hs.
  apply first_duplicate_Some. rewrite resulting_keys_perm.
  intros Hnd. apply Hij.
  eapply (NoDup_lookup _ i j (resulting_key o1) Hnd);
    rewrite list_lookup_fmap; [by rewrite H1 | by rewrite H2, Hk].
Qed.

(** C3.  Under a primary key, a statement that passes the static check
    of its assignment list and gives two changed rows the same new key,
    or gives a changed row the key of an existing row that it does not
    change (a row it does not select, or one it selects and leaves as it
    is), is rejected with [PrimaryKeyCollisionError]: no row is counted as
    updated and the snapshot handed back is the input snapshot. *)
Theorem executeUpdate_rejects_collision
    (snap : Snapshot) (pred : Row -> bool) (assigns : list Assignment)
    (i j : nat) (e1 e2 : Tuple * Tuple) (r1 r2 c1 : Row) (n1 n2 : Z) :
  is_keyless (snap_schema snap) = false ->
  NoDup assigns.*1 ->
  i <> j ->
  snap_rows snap !! i = Some e1 ->
  snap_rows snap !! j = Some e2 ->
  decode e1.1 e1.2 (snap_schema snap) = inr (r1, n1) ->
  decode e2.1 e2.2 (snap_schema snap) = inr (r2, n2) ->
  selected_changed (snap_schema snap) pred assigns r1 = true ->
  apply_assignments (snap_schema snap) assigns r1 = inr c1 ->
  (exists c2,
      selected_changed (snap_schema snap) pred assigns r2 = true
      /\ apply_assignments (snap_schema snap) assigns r2 = inr c2
      /\ (encode c1 1 (snap_schema snap)).1
         = (encode c2 1 (snap_schema snap)).1)
  \/ (selected_changed (snap_schema snap) pred assigns r2 = false
      /\ (encode c1 1 (snap_schema snap)).1 = e2.1) ->
  exists k,
    executeUpdate snap pred assigns
    = (mkUpdateResult snap 0 0 0, Some (PrimaryKeyCollisionError k)).
Proof.
  intros Hs Hnd Hij Hi Hj Hd1 Hd2 Hsel Hc1 Hcoll. unfold Map in *.
  apply (decode_pk _ _ _ _ Hs) in Hd1 as [-> _].
  apply (decode_pk _ _ _ _ Hs) in Hd2 as [-> _].
  unfold executeUpdate.
  apply first_duplicate_None in Hnd. rewrite Hnd.
  rewrite (scan_pk _ _ Hs).
  set (rows := (fun e => (e.1, pk_row (snap_schema snap) e)) <$> snap_rows snap).
  destruct (classify_all_total (snap_schema snap) pred assigns _ _ rows Hc1)
    as [outs Houts].
  rewrite Houts.
  assert (Hri : rows !! i = Some (e1.1, pk_row (snap_schema snap) e1))
    by (unfold rows; by rewrite list_lookup_fmap, Hi).
  assert (Hrj : rows !! j = Some (e2.1, pk_row (snap_schema snap) e2))
    by (unfold rows; by rewrite list_lookup_fmap, Hj).
  destruct (classify_all_lookup _ _ _ _ _ _ _ Houts Hri) as (o1 & Ho1 & Hcl1).
  destruct (classify_all_lookup _ _ _ _ _ _ _ Houts Hrj) as (o2 & Ho2 & Hcl2).
  rewrite (classify_selected_changed _ _ _ _ _ _ Hsel Hc1) in Hcl1.
  injection Hcl1 as <-.
  assert (Hkey : resulting_key
                   (Changed e1.1 (encode c1 1 (snap_schema snap)).1 c1)
                 = resulting_key o2).
  { destruct Hcoll as [(c2 & Hsel2 & Hc2 & Hk) | [Hp Hk]].
    - rewrite (classify_selected_changed _ _ _ _ _ _ Hsel2 Hc2) in Hcl2.
      injection Hcl2 as <-. exact Hk.
    - rewrite (classify_not_changed _ _ _ _ _ _ Hp Hcl2). exact Hk. }
  destruct (detect_collision_fires _ _ _ _ _ _ Hs Hij Ho1 Ho2 Hkey) as [k ->].
  by exists k.
Qed.

Lemma executeUpdate_rejects_collision_witness :
  exists k,
    executeUpdate peopleSnapshot (col_is firstTag (VString "Marge"))
      [(idTag, LInt 0)]
    = (mkUpdateResult peopleSnapshot 0 0 0,
       Some (PrimaryKeyCollisionError k)).
Proof.
  apply (executeUpdate_rejects_collision peopleSnapshot
           (col_is firstTag (VString "Marge")) [(idTag, LInt 0)]
           1%nat 0%nat
           (encode marge 1 peopleTestSchema) (encode homer 1 peopleTestSchema)
           marge homer (mutateRow marge [(idTag, VInt 0)]) 1 1).
  - reflexivity.
  - apply first_duplicate_None. reflexivity.
  - lia.
  - reflexivity.
  - reflexivity.
  - vm_compute. reflexivity.
  - vm_compute. reflexivity.
  - vm_compute. reflexivity.
  - vm_compute. reflexivity.
  - right. split; vm_compute; reflexivity.
Defined.


(** *** The rows of a scan and their entries *)










(** A column that the stored value tuple leaves out is null: setting it
    to null leaves the row unchanged.  The entry under key 9 stores the
    two names only. *)
Example null_to_unbound_column_is_unchanged :
  let snap :=
    mkSnapshot [([VInt 9], [VString "Ned"; VString "Flanders"])]
      peopleTestSchema in
  let out := executeUpdate snap (col_is idTag (VInt 9)) [(ageTag, LNull)] in
  out.2 = None /\ rowsUnchanged out.1 = 1 /\ rowsUpdated out.1 = 0
  /\ newSnapshot out.1 = snap.
Proof. vm_compute. repeat split. Qed.

(** ** Further facts about the reader *)

(** An error of the map iterator is returned as it is; the buffered row
    and count stay as they were. *)
Lemma ReadRow_iterator_error
    (dec : Tuple -> Tuple -> option Row * Z * option error)
    (rdr : keylessTableReader) (e : error) (rest : list IterStep) :
  duplicates rdr = 0 ->
  iter_pending (iter rdr) = Fault e :: rest ->
  (ReadRow dec rdr).2 = (None, Some e)
  /\ row (ReadRow dec rdr).1 = row rdr
  /\ duplicates (ReadRow dec rdr).1 = 0.
Proof.
  intros Hd Hit. unfold ReadRow, MapIterator_Next. rewrite Hd, Hit.
  done.
Qed.

(** A codec that answers with the count 0 and no error makes the
    [uint64] counter wrap: the row is returned and [2^64 - 1] copies are
    taken to be buffered. *)
Lemma ReadRow_count_zero_wraps
    (dec : Tuple -> Tuple -> option Row * Z * option error)
    (kind : IterKind) (k v : Tuple) (rest : list IterStep) (s : Schema)
    (r0 r : option Row) :
  dec k v = (r, 0, None) ->
  ReadRow dec (mkReader (mkIter kind (Yield k v :: rest)) s r0 0)
  = (mkReader (mkIter kind rest) s r (uint64_modulus - 1), (r, None)).
Proof. intros Hdec. unfold ReadRow. simpl. by rewrite Hdec. Qed.

(** An error of [ReadRow] ends [ReadSqlRow] before the conversion. *)
Lemma ReadSqlRow_error
    (dec : Tuple -> Tuple -> option Row * Z * option error)
    (SqlRow : Type)
    (conv : option Row -> Schema -> option SqlRow * option error)
    (rdr rdr' : keylessTableReader) (r : option Row) (e : error) :
  ReadRow dec rdr = (rdr', (r, Some e)) ->
  ReadSqlRow dec conv rdr = (rdr', (None, Some e)).
Proof. intros H. unfold ReadSqlRow. by rewrite H. Qed.

(** When [GetRowData] fails, every constructor returns its error and no
    reader. *)
Lemma constructors_GetRowData_error (tbl : Table) (m : Map) (e : error)
    (s : Schema) (buffered : bool) (start end_ : Z) (val : Tuple) :
  GetRowData tbl = (m, Some e) ->
  newKeylessTableReader tbl s buffered = (None, Some e)
  /\ newKeylessTableReaderForPartition tbl s start end_ = (None, Some e)
  /\ newKeylessTableReaderFrom tbl s val = (None, Some e).
Proof.
  intros H.
  unfold newKeylessTableReader, newKeylessTableReaderForPartition,
    newKeylessTableReaderFrom.
  by rewrite H.
Qed.

(** [newKeylessTableReaderFrom] starts at the first entry whose key is not
    below the given one. *)
Lemma newKeylessTableReaderFrom_start (tbl : Table) (m : Map) (s : Schema)
    (val : Tuple) :
  GetRowData tbl = (m, None) ->
  newKeylessTableReaderFrom tbl s val
  = (Some (freshReader (mkIter PlainIterator (entry_step <$> Map_seek val m)) s),
     None).
Proof. intros H. unfold newKeylessTableReaderFrom. by rewrite H. Qed.

(** ** The cases of TestExecuteUpdate

    Each case of sqlupdate_test.go that involves no float, run on the
    model of [executeUpdate]; the WHERE clause is written as the predicate
    it denotes. *)

Example test_update_one_row_one_col_primary_key_where :
  test_passes
    (executeUpdate peopleSnapshot (col_is idTag (VInt 0))
       [(firstTag, LString "Domer")])
    [mutateRow homer [(firstTag, VString "Domer")]] 1 0 = true.
Proof. vm_compute. reflexivity. Qed.

Example test_update_one_row_one_col_non_primary_key_where :
  test_passes
    (executeUpdate peopleSnapshot (col_is firstTag (VString "Homer"))
       [(firstTag, LString "Domer")])
    [mutateRow homer [(firstTag, VString "Domer")]] 1 0 = true.
Proof. vm_compute. reflexivity. Qed.

Example test_update_one_row_two_cols :
  test_passes
    (executeUpdate peopleSnapshot (col_is idTag (VInt 0))
       [(firstTag, LString "Ned"); (lastTag, LString "Flanders")])
    [mutateRow homer
       [(firstTag, VString "Ned"); (lastTag, VString "Flanders")]] 1 0
  = true.
Proof. vm_compute. reflexivity. Qed.

(** The [rating] assignment of this case is left out with the column. *)
Example test_set_columns_to_existing_values :
  test_passes
    (executeUpdate peopleSnapshot (col_is idTag (VInt 0))
       [(firstTag, LString "Homer"); (lastTag, LString "Simpson");
        (isMarriedTag, LBool true); (ageTag, LInt 40);
        (numEpisodesTag, LNull); (uuidTag, LNull)])
    [] 0 1 = true.
Proof. vm_compute. reflexivity. Qed.

Example test_update_multiple_rows_eq :
  test_passes
    (executeUpdate peopleSnapshot (col_is lastTag (VString "Simpson"))
       [(firstTag, LString "Homer")])
    [mutateRow marge [(firstTag, VString "Homer")];
     mutateRow bart [(firstTag, VString "Homer")];
     mutateRow lisa [(firstTag, VString "Homer")]] 3 1 = true.
Proof. vm_compute. reflexivity. Qed.

Example test_update_multiple_rows_neq :
  test_passes
    (executeUpdate peopleSnapshot
       (fun r => negb (col_is lastTag (VString "Simpson") r))
       [(lastTag, LString "Simpson")])
    [mutateRow moe [(lastTag, VString "Simpson")];
     mutateRow barney [(lastTag, VString "Simpson")]] 2 0 = true.
Proof. vm_compute. reflexivity. Qed.

Example test_update_multiple_rows_gt :
  test_passes
    (executeUpdate peopleSnapshot (col_int ageTag (fun a => 10 <? a))
       [(firstTag, LString "Homer")])
    [mutateRow marge [(firstTag, VString "Homer")];
     mutateRow moe [(firstTag, VString "Homer")];
     mutateRow barney [(firstTag, VString "Homer")]] 3 1 = true.
Proof. vm_compute. reflexivity. Qed.

Example test_update_multiple_rows_ge :
  test_passes
    (executeUpdate peopleSnapshot (col_int ageTag (fun a => 10 <=? a))
       [(firstTag, LString "Homer")])
    [mutateRow marge [(firstTag, VString "Homer")];
     mutateRow bart [(firstTag, VString "Homer")];
     mutateRow moe [(firstTag, VString "Homer")];
     mutateRow barney [(firstTag, VString "Homer")]] 4 1 = true.
Proof. vm_compute. reflexivity. Qed.

Example test_update_multiple_rows_lt :
  test_passes
    (executeUpdate peopleSnapshot (col_int ageTag (fun a => a <? 40))
       [(firstTag, LString "Bart")])
    [mutateRow marge [(firstTag, VString "Bart")];
     mutateRow lisa [(firstTag, VString "Bart")]] 2 1 = true.
Proof. vm_compute. reflexivity. Qed.

Example test_update_multiple_rows_le :
  test_passes
    (executeUpdate peopleSnapshot (col_int ageTag (fun a => a <=? 40))
       [(firstTag, LString "Homer")])
    [mutateRow marge [(firstTag, VString "Homer")];
     mutateRow bart [(firstTag, VString "Homer")];
     mutateRow lisa [(firstTag, VString "Homer")];
     mutateRow barney [(firstTag, VString "Homer")]] 4 1 = true.
Proof. vm_compute. reflexivity. Qed.

Example test_existing_row_key_collision :
  executeUpdate peopleSnapshot (col_is firstTag (VString "Marge"))
    [(idTag, LInt 0)]
  = (mkUpdateResult peopleSnapshot 0 0 0,
     Some (PrimaryKeyCollisionError [VInt 0])).
Proof. vm_compute. reflexivity. Qed.

Example test_duplicate_primary_keys_in_updated_rows :
  executeUpdate peopleSnapshot (col_is lastTag (VString "Simpson"))
    [(idTag, LInt 100)]
  = (mkUpdateResult peopleSnapshot 0 0 0,
     Some (PrimaryKeyCollisionError [VInt 100])).
Proof. vm_compute. reflexivity. Qed.

Example test_duplicate_column_in_update_list :
  (executeUpdate peopleSnapshot (fun _ => true)
     [(firstTag, LString "Marge"); (firstTag, LString "Homer");
      (lastTag, LString "Simpson")]).2
  = Some (DuplicateAssignmentColumnError firstTag).
Proof. vm_compute. reflexivity. Qed.

Example test_null_constraint_failure :
  (executeUpdate peopleSnapshot (col_is idTag (VInt 0))
     [(firstTag, LNull)]).2
  = Some (NullConstraintViolation firstTag).
Proof. vm_compute. reflexivity. Qed.

(** The type mismatches of the test that involve no float: int to
    string, bool and uuid; string to int, uint and uuid; bool to int,
    string and uuid. *)
Example test_type_mismatches :
  forallb
    (fun a => test_fails (executeUpdate peopleSnapshot
                            (col_is idTag (VInt 0)) [a]))
    [ (firstTag, LInt 1); (isMarriedTag, LInt 0); (uuidTag, LInt 0);
      (ageTag, LString "pretty old");
      (numEpisodesTag, LString "all of them");
      (uuidTag, LString "not a uuid string");
      (ageTag, LBool true); (lastTag, LBool true); (uuidTag, LBool false) ]
  = true.
Proof. vm_compute. reflexivity. Qed.

(** ** Further properties of keyless_reader.go *)

Section ReaderSteps.

Variable dec : Tuple -> Tuple -> option Row * Z * option error.

Lemma ReadRows_succ (n : nat) (rdr : keylessTableReader) :
  ReadRows dec (S n) rdr
  = ((ReadRow dec rdr).2 :: (ReadRows dec n (ReadRow dec rdr).1).1,
     (ReadRows dec n (ReadRow dec rdr).1).2).
Proof.
  cbn [ReadRows]. destruct (ReadRow dec rdr) as [rdr' out]. cbn [fst snd].
  by destruct (ReadRows dec n rdr').
Qed.

(** One call keeps the schema and the kind of the iterator, and moves the
    cursor by no entry or by one. *)
Lemma ReadRow_step (rdr : keylessTableReader) :
  sch (ReadRow dec rdr).1 = sch rdr
  /\ iter_kind (iter (ReadRow dec rdr).1) = iter_kind (iter rdr)
  /\ (iter_pending (iter (ReadRow dec rdr).1) = iter_pending (iter rdr)
      \/ iter_pending (iter (ReadRow dec rdr).1)
         = drop 1 (iter_pending (iter rdr))).
Proof.
  unfold ReadRow, MapIterator_Next.
  destruct (duplicates rdr =? 0); [|simpl; auto].
  destruct (iter_pending (iter rdr)) as [|[k v|e] rest] eqn:Hp; simpl.
  - rewrite Hp. auto.
  - destruct (dec k v) as [[r n] [e|]]; simpl; auto.
  - auto.
Qed.

(** Readers with the same reads ahead return the same and stay so. *)
Lemma ReadRow_same_reads (a b : keylessTableReader) :
  same_reads a b ->
  (ReadRow dec a).2 = (ReadRow dec b).2
  /\ same_reads (ReadRow dec a).1 (ReadRow dec b).1.
Proof.
  intros (Hp & Hd & Hr). unfold ReadRow, MapIterator_Next, same_reads.
  rewrite <- Hd, <- Hp.
  destruct (Z.eqb_spec (duplicates a) 0) as [E|E].
  - destruct (iter_pending (iter a)) as [|[k v|e] rest] eqn:Hpa; simpl.
    + rewrite <- Hp, Hpa. repeat split; try done; try (intros; lia).
    + destruct (dec k v) as [[r n] [e|]]; simpl; done.
    + repeat split; try done; try (intros; lia).
  - simpl. rewrite (Hr E).
    repeat split; try done; try (intros _; by apply Hr).
Qed.

Lemma ReadRows_same_reads (n : nat) (a b : keylessTableReader) :
  same_reads a b ->
  (ReadRows dec n a).1 = (ReadRows dec n b).1
  /\ same_reads (ReadRows dec n a).2 (ReadRows dec n b).2.
Proof.
  revert a b. induction n as [|n IH]; intros a b Hab; [done|].
  rewrite !ReadRows_succ. cbn [fst snd].
  destruct (ReadRow_same_reads a b Hab) as [Hout Hnext].
  destruct (IH _ _ Hnext) as [Houts Hlast].
  by rewrite Hout, Houts.
Qed.

(** A scan of well-formed entries that stand before other steps [rest] of
    the iterator stops in front of [rest] with nothing buffered. *)
Lemma ReadRows_scan_prefix kind (m : Map) (rest : list IterStep) s r0 :
  keyless_wf dec m = true ->
  exists r1,
    ReadRows dec (Z.to_nat (sum_counts dec m))
      (mkReader (mkIter kind ((entry_step <$> m) ++ rest)) s r0 0)
    = (emitted <$> expand dec m, mkReader (mkIter kind rest) s r1 0).
Proof.
  revert r0. induction m as [|e m IH]; intros r0 Hwf.
  - exists r0. done.
  - cbn [keyless_wf forallb] in Hwf.
    apply andb_true_iff in Hwf as [He Hm].
    destruct (entry_wf_inv dec e He) as [Hdec Hn].
    destruct (IH (entry_row dec e) Hm) as [r1 IH'].
    exists r1.
    pose proof (sum_counts_nonneg dec m Hm) as Hs.
    set (c := Z.to_nat (entry_count dec e - 1)).
    assert (Hc : entry_count dec e - 1 = Z.of_nat c) by lia.
    cbn [sum_counts foldr]. fold (sum_counts dec m).
    replace (Z.to_nat (entry_count dec e + sum_counts dec m))
      with (S (c + Z.to_nat (sum_counts dec m)))%nat by lia.
    cbn [ReadRows fmap list_fmap app]. unfold entry_step at 1.
    rewrite (ReadRow_entry dec kind e.1 e.2 _ s r0 _ _ Hdec Hn), Hc.
    rewrite ReadRows_app, ReadRows_drain by lia.
    cbn [fst snd]. rewrite IH'. cbn [fst snd].
    rewrite expand_cons, fmap_app.
    replace (Z.to_nat (entry_count dec e)) with (S c) by lia.
    cbn [replicate fmap list_fmap]. rewrite fmap_replicate. done.
Qed.

End ReaderSteps.

(** C9, as amended.  When the codec fails on the entry under the cursor,
    [ReadRow] returns the codec's error and no row on that call, and
    leaves the iterator past the entry, so no later call decodes it
    again.  The reader keeps no failed state: when the codec hands back
    Go's zero count beside the error, the calls that follow return what a
    fresh reader over the entries after the failed one returns, so no row
    is returned for the failed entry and the scan reads on.  With the
    codec of the specification the error is [MalformedRowError] when the
    count field of a keyless value tuple is missing, is no integer or is
    not positive. *)
Theorem ReadRow_decode_failure :
  (forall (dec : Tuple -> Tuple -> option Row * Z * option error)
          (rdr : keylessTableReader) (k v : Tuple) (rest : list IterStep)
          (r : option Row) (n : Z) (e : error),
      duplicates rdr = 0 ->
      iter_pending (iter rdr) = Yield k v :: rest ->
      dec k v = (r, n, Some e) ->
      ReadRow dec rdr
      = (mkReader (mkIter (iter_kind (iter rdr)) rest) (sch rdr) r n,
         (None, Some e)))
  /\ (forall (dec : Tuple -> Tuple -> option Row * Z * option error)
            (rdr : keylessTableReader) (k v : Tuple) (rest : list IterStep)
            (r : option Row) (e : error) (m : nat),
        duplicates rdr = 0 ->
        iter_pending (iter rdr) = Yield k v :: rest ->
        dec k v = (r, 0, Some e) ->
        (ReadRows dec (S m) rdr).1
        = (None, Some e)
          :: (ReadRows dec m
                (freshReader (mkIter (iter_kind (iter rdr)) rest)
                   (sch rdr))).1)
  /\ (forall (s : Schema) (k v : Tuple),
        is_keyless s = true ->
        (v = []
         \/ exists c payload,
              v = c :: payload
              /\ (parse_count c = None
                  \/ exists n, parse_count c = Some n /\ n <= 0)) ->
        KeylessRowsFromTuples_of s k v = (None, 0, Some MalformedRowError)).
Proof.
  assert (Hone :
    forall (dec : Tuple -> Tuple -> option Row * Z * option error)
           (rdr : keylessTableReader) (k v : Tuple) (rest : list IterStep)
           (r : option Row) (n : Z) (e : error),
      duplicates rdr = 0 ->
      iter_pending (iter rdr) = Yield k v :: rest ->
      dec k v = (r, n, Some e) ->
      ReadRow dec rdr
      = (mkReader (mkIter (iter_kind (iter rdr)) rest) (sch rdr) r n,
         (None, Some e))).
  { intros dec rdr k v rest r n e Hd Hit Hdec.
    unfold ReadRow, MapIterator_Next. rewrite Hd, Hit. simpl.
    rewrite Hdec. reflexivity. }
  split; [exact Hone | split].
  - intros dec rdr k v rest r e m Hd Hit Hdec.
    rewrite ReadRows_succ, (Hone dec rdr k v rest r 0 e Hd Hit Hdec).
    cbn [fst snd]. f_equal.
    apply ReadRows_same_reads. repeat split; done.
  - intros s k v Hs Hbad. unfold KeylessRowsFromTuples_of, decode.
    rewrite Hs.
    destruct Hbad as [-> | (c & payload & -> & [Hc | (n & Hc & Hn)])];
      [reflexivity | by rewrite Hc |].
    rewrite Hc. destruct (Z.leb_spec n 0); [reflexivity | lia].
Qed.

Lemma ReadRow_decode_failure_witness :
  ReadRow (KeylessRowsFromTuples_of pairSchema)
    (freshReader
       (mkIter PlainIterator
          [Yield [VUint 9] [VUint 0; VString "z"; VInt 0];
           Yield [VUint 10] [VUint 1; VString "y"; VInt 1]])
       pairSchema)
  = (mkReader
       (mkIter PlainIterator [Yield [VUint 10] [VUint 1; VString "y"; VInt 1]])
       pairSchema None 0,
     (None, Some MalformedRowError)).
Proof.
  exact (proj1 ReadRow_decode_failure
           (KeylessRowsFromTuples_of pairSchema)
           (freshReader
              (mkIter PlainIterator
                 [Yield [VUint 9] [VUint 0; VString "z"; VInt 0];
                  Yield [VUint 10] [VUint 1; VString "y"; VInt 1]])
              pairSchema)
           [VUint 9] [VUint 0; VString "z"; VInt 0]
           [Yield [VUint 10] [VUint 1; VString "y"; VInt 1]]
           None 0 MalformedRowError eq_refl eq_refl eq_refl).
Defined.

(** C9, as stated, fails: the error is not fatal for the scan.  The
    first entry has the count 0, which the codec of the specification
    refuses; the first call returns [MalformedRowError], and the second
    call, on the same reader, returns the row of the second entry. *)
Lemma decode_failure_is_not_fatal :
  (ReadRows (KeylessRowsFromTuples_of pairSchema) 2
     (freshReader
        (mkIter PlainIterator
           [Yield [VUint 9] [VUint 0; VString "z"; VInt 0];
            Yield [VUint 10] [VUint 1; VString "y"; VInt 1]])
        pairSchema)).1
  = [ (None, Some MalformedRowError); (Some (pairRow "y" 1), None) ].
Proof. vm_compute. reflexivity. Qed.

Lemma ReadRows_run
    (dec : Tuple -> Tuple -> option Row * Z * option error)
    (k : nat) it s r (d : Z) :
  Z.of_nat k <= d < uint64_modulus ->
  ReadRows dec k (mkReader it s r d)
  = (replicate k (r, None), mkReader it s r (d - Z.of_nat k)).
Proof.
  revert d. induction k as [|k IH]; intros d Hd.
  - replace (d - Z.of_nat 0) with d by lia. done.
  - rewrite ReadRows_succ, ReadRow_buffered by (simpl; lia). cbn [fst snd].
    rewrite IH by (simpl; lia).
    cbn [fst snd iter sch row duplicates replicate].
    replace (d - 1 - Z.of_nat k) with (d - Z.of_nat (S k)) by lia. done.
Qed.

(** X1.  As long as duplicates are buffered the reader works from its
    buffer alone: with [d] copies buffered, any [k <= d] calls return the
    buffered row [k] times, lower the count by [k], and leave the map
    iterator exactly as it was, whatever it holds. *)
Theorem buffered_rows_leave_iterator_alone
    (dec : Tuple -> Tuple -> option Row * Z * option error)
    (rdr : keylessTableReader) (k : nat) :
  Z.of_nat k <= duplicates rdr < uint64_modulus ->
  (ReadRows dec k rdr).1 = replicate k (row rdr, None)
  /\ iter (ReadRows dec k rdr).2 = iter rdr
  /\ row (ReadRows dec k rdr).2 = row rdr
  /\ duplicates (ReadRows dec k rdr).2 = duplicates rdr - Z.of_nat k.
Proof.
  intros Hd. destruct rdr as [it s r d]. simpl in Hd.
  by rewrite ReadRows_run.
Qed.

Lemma buffered_rows_leave_iterator_alone_witness :
  (ReadRows rawCodec 2
     (mkReader (mkIter PlainIterator [Fault (StorageError "chunk")])
        pairSchema (Some (pairRow "a" 1)) 3)).1
  = replicate 2 (Some (pairRow "a" 1), None).
Proof.
  apply (buffered_rows_leave_iterator_alone rawCodec
           (mkReader (mkIter PlainIterator [Fault (StorageError "chunk")])
              pairSchema (Some (pairRow "a" 1)) 3) 2).
  vm_compute. split; [discriminate | reflexivity].
Defined.

(** X2.  The end of the sequence is final: a reader at the end of its map
    with nothing buffered answers every further call with [io.EOF] and
    stays as it is. *)
Theorem EOF_is_final
    (dec : Tuple -> Tuple -> option Row * Z * option error)
    (kind : IterKind) (s : Schema) (r : option Row) (n : nat) :
  ReadRows dec n (mkReader (mkIter kind []) s r 0)
  = (replicate n (None, Some io_EOF), mkReader (mkIter kind []) s r 0).
Proof.
  induction n as [|n IH]; [done|].
  rewrite ReadRows_succ, ReadRow_end. cbn [fst snd]. by rewrite IH.
Qed.

(** X3.  The count is not checked by the reader: when the codec hands
    back the count 0 and no error, the [uint64] subtraction wraps, and the
    row of that one entry is returned by this call and by the next
    [2^64 - 1] calls, during which the iterator does not move. *)
Theorem zero_count_repeats_row
    (dec : Tuple -> Tuple -> option Row * Z * option error)
    (kind : IterKind) (k v : Tuple) (rest : list IterStep) (s : Schema)
    (r0 r : option Row) (n : nat) :
  dec k v = (r, 0, None) ->
  Z.of_nat n < uint64_modulus ->
  ReadRows dec (S n) (mkReader (mkIter kind (Yield k v :: rest)) s r0 0)
  = (replicate (S n) (r, None),
     mkReader (mkIter kind rest) s r (uint64_modulus - 1 - Z.of_nat n)).
Proof.
  intros Hdec Hn.
  rewrite ReadRows_succ, (ReadRow_count_zero_wraps dec kind k v rest s r0 r Hdec).
  cbn [fst snd]. rewrite ReadRows_run by lia. done.
Qed.

Lemma zero_count_repeats_row_witness :
  ReadRows rawCodec 4
    (mkReader
       (mkIter PlainIterator
          [Yield [VString "a"] [VUint 0]; Yield [VString "b"] [VUint 1]])
       pairSchema None 0)
  = (replicate 4 (Some {[ 1%N := VString "a" ]}, None),
     mkReader (mkIter PlainIterator [Yield [VString "b"] [VUint 1]])
       pairSchema (Some {[ 1%N := VString "a" ]}) (uint64_modulus - 1 - 3)).
Proof.
  apply (zero_count_repeats_row rawCodec PlainIterator
           [VString "a"] [VUint 0] [Yield [VString "b"] [VUint 1]]
           pairSchema None (Some {[ 1%N := VString "a" ]}) 3).
  - reflexivity.
  - reflexivity.
Defined.

(** X4.  Calls of [ReadRow] never change the schema [GetSchema] answers
    with, nor the kind of the iterator, and the cursor only moves
    forward, by at most one entry a call: after [n] calls the entries
    still to come are those of before without their first [k], for some
    [k <= n]. *)
Theorem reader_keeps_schema_and_moves_forward
    (dec : Tuple -> Tuple -> option Row * Z * option error)
    (n : nat) (rdr : keylessTableReader) :
  GetSchema (ReadRows dec n rdr).2 = GetSchema rdr
  /\ iter_kind (iter (ReadRows dec n rdr).2) = iter_kind (iter rdr)
  /\ exists k : nat,
       (k <= n)%nat
       /\ iter_pending (iter (ReadRows dec n rdr).2)
          = drop k (iter_pending (iter rdr)).
Proof.
  unfold GetSchema. revert rdr. induction n as [|n IH]; intros rdr.
  - repeat split. exists 0%nat. done.
  - rewrite ReadRows_succ. cbn [snd].
    destruct (ReadRow_step dec rdr) as (Hs & Hk & Hp).
    destruct (IH (ReadRow dec rdr).1) as (IHs & IHk & k & Hkn & IHp).
    rewrite IHs, IHk, Hs, Hk. repeat split.
    destruct Hp as [Hp|Hp]; rewrite IHp, Hp.
    + exists k. split; [lia | done].
    + exists (S k). split; [lia|]. rewrite drop_drop. done.
Qed.

(** X6.  The reader keeps no failed state.  When the codec fails on an
    entry in the middle of a map (handing back Go's zero count with the
    error), the calls before it return the rows of the entries before it,
    one call returns the error, and the calls after it go on with the
    rows of the entries after it, as if the failed entry were not
    there. *)
Theorem scan_goes_on_after_decode_error
    (dec : Tuple -> Tuple -> option Row * Z * option error)
    (kind : IterKind) (m1 m2 : Map) (bad : Tuple * Tuple) (s : Schema)
    (r : option Row) (e : error) :
  keyless_wf dec m1 = true ->
  keyless_wf dec m2 = true ->
  dec bad.1 bad.2 = (r, 0, Some e) ->
  (ReadRows dec
     (Z.to_nat (sum_counts dec m1) + S (Z.to_nat (sum_counts dec m2)))
     (freshReader (mkIter kind (entry_step <$> m1 ++ bad :: m2)) s)).1
  = (emitted <$> expand dec m1)
    ++ (None, Some e) :: (emitted <$> expand dec m2).
Proof.
  intros H1 H2 Hbad. unfold freshReader.
  rewrite fmap_app, fmap_cons, ReadRows_app.
  destruct (ReadRows_scan_prefix dec kind m1
              (entry_step bad :: (entry_step <$> m2)) s None H1) as [r1 ->].
  cbn [fst snd]. f_equal. rewrite ReadRows_succ. cbn [fst].
  unfold ReadRow at 1 2. unfold entry_step at 1 3. simpl.
  rewrite Hbad. cbn [fst snd]. f_equal.
  destruct (ReadRows_scan dec kind m2 s r H2) as [r2 ->]. done.
Qed.

Lemma scan_goes_on_after_decode_error_witness :
  (ReadRows rawCodec 3
     (freshReader
        (mkIter PlainIterator
           [Yield [VString "a"] [VUint 1]; Yield [VString "x"] [];
            Yield [VString "b"] [VUint 1]])
        pairSchema)).1
  = [ (Some {[ 1%N := VString "a" ]}, None);
      (None, Some MalformedRowError);
      (Some {[ 1%N := VString "b" ]}, None) ].
Proof.
  apply (scan_goes_on_after_decode_error rawCodec PlainIterator
           [([VString "a"], [VUint 1])] [([VString "b"], [VUint 1])]
           ([VString "x"], []) pairSchema None MalformedRowError);
    reflexivity.
Defined.

(** X8.  The constructors keep Go's convention: each returns a reader
    and no error, or an error and no reader, never both and never
    neither.  A reader they return is fresh (no row buffered, count 0) and
    answers [GetSchema] with the schema it was given; and the three
    constructors that read the table return the error of [GetRowData] as
    it is, and no reader, whatever map came with it. *)
Theorem constructors_keep_go_convention
    (ReadRange : Type) (tbl : Table) (s : Schema) (buffered : bool)
    (start end_ : Z) (ranges : list ReadRange) (val : Tuple) :
  constructed s (newKeylessTableReader tbl s buffered)
  /\ constructed s (newKeylessTableReaderForPartition tbl s start end_)
  /\ constructed s (newKeylessTableReaderForRanges tbl s ranges)
  /\ constructed s (newKeylessTableReaderFrom tbl s val)
  /\ (forall m e,
        GetRowData tbl = (m, Some e) ->
        newKeylessTableReader tbl s buffered = (None, Some e)
        /\ newKeylessTableReaderForPartition tbl s start end_
           = (None, Some e)
        /\ newKeylessTableReaderFrom tbl s val = (None, Some e)).
Proof.
  unfold newKeylessTableReader, newKeylessTableReaderForPartition,
    newKeylessTableReaderForRanges, newKeylessTableReaderFrom, constructed.
  destruct (GetRowData tbl) as [m0 [e0|]]; destruct buffered; simpl;
    (do 4 (split; [done|])); intros m1 e1 Herr; by simplify_eq.
Qed.

(** X10.  A partition reader takes up the full scan where the entries
    before its offset end: the reader from the beginning returns first
    the rows of the entries before the offset, each with its full count,
    and from then on, call by call, exactly what the partition reader at
    that offset returns. *)
Theorem partition_reader_continues_full_scan
    (dec : Tuple -> Tuple -> option Row * Z * option error)
    (tbl : Table) (m : Map) (s : Schema) (buffered : bool)
    (start end_ : Z) (n : nat) :
  GetRowData tbl = (m, None) ->
  keyless_wf dec (take (Z.to_nat start) m) = true ->
  row_sequence dec
    (Z.to_nat (sum_counts dec (take (Z.to_nat start) m)) + n)
    (newKeylessTableReader tbl s buffered)
  = (emitted <$> expand dec (take (Z.to_nat start) m))
    ++ row_sequence dec n
         (newKeylessTableReaderForPartition tbl s start end_).
Proof.
  intros Hrows Hwf.
  unfold newKeylessTableReader, newKeylessTableReaderForPartition,
    row_sequence.
  rewrite Hrows.
  set (kind := if buffered then PlainIterator else BufferedIterator).
  replace ((if buffered then Map_Iterator m else Map_BufferedIterator m))
    with (mkIter kind (entry_step <$> m), @None error)
    by (by destruct buffered).
  cbn [fst snd Map_BufferedIteratorAt]. unfold freshReader.
  rewrite <- (take_drop (Z.to_nat start) m) at 2.
  rewrite fmap_app, ReadRows_app.
  destruct (ReadRows_scan_prefix dec kind (take (Z.to_nat start) m)
              (entry_step <$> drop (Z.to_nat start) m) s None Hwf)
    as [r1 ->].
  cbn [fst snd]. f_equal.
  apply ReadRows_same_reads. repeat split; done.
Qed.

Lemma partition_reader_continues_full_scan_witness :
  row_sequence (KeylessRowsFromTuples_of pairSchema) (4 + 2)
    (newKeylessTableReader pairTable pairSchema false)
  = (emitted <$> expand (KeylessRowsFromTuples_of pairSchema)
                   (take 2 pairMap))
    ++ row_sequence (KeylessRowsFromTuples_of pairSchema) 2
         (newKeylessTableReaderForPartition pairTable pairSchema 2 0).
Proof.
  apply (partition_reader_continues_full_scan
           (KeylessRowsFromTuples_of pairSchema)
           pairTable pairMap pairSchema false 2 0 2); reflexivity.
Defined.

(** X13.  [ReadSqlRow] is [ReadRow] followed by the conversion: any
    number of calls leaves the reader where as many calls of [ReadRow]
    leave it, and returns the results of those calls with every row
    converted under the reader's schema and every error passed on
    unconverted. *)
Theorem ReadSqlRows_converts_ReadRows
    (dec : Tuple -> Tuple -> option Row * Z * option error)
    (SqlRow : Type)
    (conv : option Row -> Schema -> option SqlRow * option error)
    (n : nat) (rdr : keylessTableReader) :
  ReadSqlRows dec conv n rdr
  = (sql_result conv (GetSchema rdr) <$> (ReadRows dec n rdr).1,
     (ReadRows dec n rdr).2).
Proof.
  unfold GetSchema. revert rdr. induction n as [|n IH]; intros rdr; [done|].
  rewrite ReadRows_succ. cbn [ReadSqlRows fst snd]. unfold ReadSqlRow.
  destruct (ReadRow_step dec rdr) as (Hs & _).
  destruct (ReadRow dec rdr) as [rdr' [r err]]. cbn [fst snd] in *.
  rewrite fmap_cons. unfold sql_result at 1. cbn [fst snd].
  destruct err as [e|]; rewrite IH, Hs; done.
Qed.

(** X14.  [ReadRow] stores what the codec hands back before it looks at
    the error: when the codec returns an error together with a row and a
    count [c > 0], the call returns the error, and the next [c] calls
    return that row from the buffer without reading the map. *)
Theorem decode_error_results_are_buffered
    (dec : Tuple -> Tuple -> option Row * Z * option error)
    (kind : IterKind) (k v : Tuple) (rest : list IterStep) (s : Schema)
    (r0 r : option Row) (c : nat) (e : error) :
  dec k v = (r, Z.of_nat c, Some e) ->
  Z.of_nat c < uint64_modulus ->
  ReadRows dec (S c) (mkReader (mkIter kind (Yield k v :: rest)) s r0 0)
  = ((None, Some e) :: replicate c (r, None),
     mkReader (mkIter kind rest) s r 0).
Proof.
  intros Hdec Hc. rewrite ReadRows_succ.
  assert (Hstep :
            ReadRow dec (mkReader (mkIter kind (Yield k v :: rest)) s r0 0)
            = (mkReader (mkIter kind rest) s r (Z.of_nat c),
               (None, Some e)))
    by (unfold ReadRow; simpl; by rewrite Hdec).
  rewrite Hstep. cbn [fst snd].
  rewrite ReadRows_run by lia. cbn [fst snd].
  replace (Z.of_nat c - Z.of_nat c) with 0 by lia. done.
Qed.

Lemma decode_error_results_are_buffered_witness :
  ReadRows (fun _ _ => (Some (pairRow "a" 1), 2, Some MalformedRowError)) 3
    (mkReader (mkIter PlainIterator [Yield [VUint 1] [VUint 2]])
       pairSchema None 0)
  = ([ (None, Some MalformedRowError);
       (Some (pairRow "a" 1), None); (Some (pairRow "a" 1), None) ],
     mkReader (mkIter PlainIterator []) pairSchema (Some (pairRow "a" 1)) 0).
Proof.
  apply (decode_error_results_are_buffered
           (fun _ _ => (Some (pairRow "a" 1), 2, Some MalformedRowError))
           PlainIterator [VUint 1] [VUint 2] [] pairSchema None
           (Some (pairRow "a" 1)) 2%nat MalformedRowError);
    reflexivity.
Defined.
